(** * ctutil: per-log verification state and inclusion checking

    A shallow embedding of [ctutil/loginfo.go]: the [LogInfo] object of a
    Certificate Transparency log, its cache of the last signed tree head,
    the SCT and inclusion verification entry points, and the construction
    of the registry of logs indexed by key hash.

    Go values returned as [(value, error)] pairs are pairs here, with
    [option] for what may be [nil].  The collaborators of the package (the
    transport client, the signature verifier, the Merkle verifier, the
    key parser, SHA-256, string quoting) are taken as an interface. *)

From Stdlib Require Import ZArith String Ascii List Lia Strings.Byte.
From stdpp Require Import gmap strings pretty.
Import ListNotations.
Local Open Scope string_scope.
Local Open Scope list_scope.
Local Open Scope Z_scope.

(** ** Bytes, hashes and errors *)

Definition bytes := list byte.

#[global] Instance byte_eq_dec : EqDecision byte := Byte.byte_eq_dec.
#[global] Instance byte_countable : Countable byte :=
  inj_countable Byte.to_N Byte.of_N Byte.of_to_N.

(** An [error] is rendered with [%v] wherever the package uses one, so it
    is modelled by its [Error()] text. *)
Definition error := string.

(** Wrap-around of [int64] arithmetic (two's complement). *)
Definition wrap_int64 (x : Z) : Z :=
  (x + 2 ^ 63) mod 2 ^ 64 - 2 ^ 63.

(** Go's [int64(x)] on a [uint64]: the same 64 bits read as two's complement. *)
Definition int64_of_uint64 (x : Z) : Z := wrap_int64 x.

(** [time.Second], in nanoseconds. *)
Definition time_Second : Z := 1000000000.

(** Substring test, as [strings.Contains]; it says what an error text
    carries. *)
Fixpoint Contains (s substr : string) : bool :=
  String.prefix substr s ||
  match s with
  | EmptyString => false
  | String _ s' => Contains s' substr
  end.

(** ** Data of package [ct] used by [ctutil] *)

(** Modelled from the spec: the declaration of [ct.SignedTreeHead] (tree
    size, root hash, timestamp, signature) is not part of [ctutil]. *)
Record SignedTreeHead := {
  TreeSize : Z;
  STH_Timestamp : Z;
  SHA256RootHash : bytes;
  TreeHeadSignature : bytes
}.

(** Modelled from the spec: the declaration of [ct.TimestampedEntry], a
    timestamp field followed by the entry data. *)
Record TimestampedEntry := {
  Timestamp : Z;
  EntryType : Z;
  EntryData : bytes
}.

(** Locations of [TimestampedEntry] objects. *)
Definition loc := nat.

(** Modelled from the spec: the declaration of [ct.MerkleTreeLeaf], which
    is in the root package.  The leaf refers to its timestamped entry
    ([*TimestampedEntry], possibly [nil]): the entry is the object whose
    timestamp field the code overwrites (the timestamp field of the
    leaf of the caller is set to the timestamp of the SCT or to the one
    provided: an in-place mutation of the leaf supplied), shared with
    whoever else holds the leaf.  A [MerkleTreeLeaf] passed by value is a
    copy of these three fields, the reference included. *)
Record MerkleTreeLeaf := {
  Version : Z;
  LeafType : Z;
  TimestampedEntry_ptr : option loc
}.

(** Modelled from the spec: [ct.SignedCertificateTimestamp], a timestamp
    plus the log's signature. *)
Record SignedCertificateTimestamp := {
  SCT_Timestamp : Z;
  SCT_Signature : bytes
}.

(** [client.GetProofByHashResponse]. *)
Record GetProofByHashResponse := {
  LeafIndex : Z;
  AuditPath : list bytes
}.

(** [jsonclient.Options], with the fields the package sets. *)
Record Options := {
  PublicKeyDER : bytes;
  UserAgent : string
}.

(** [loglist.Log] and [loglist.LogList], with the fields the package reads. *)
Record Log := {
  Log_Description : string;
  Key : bytes;
  URL : string;
  DNSAPIEndpoint : string;
  MaximumMergeDelay : Z
}.

Record LogList := { Logs : list Log }.

Definition set_Timestamp (ts : Z) (e : TimestampedEntry) : TimestampedEntry :=
  {| Timestamp := ts; EntryType := EntryType e; EntryData := EntryData e |}.

(** A method either returns or panics (a nil dereference). *)
Inductive Outcome (A : Type) :=
| Returned (a : A)
| Panicked.
Arguments Returned {A} a.
Arguments Panicked {A}.

(** ** The collaborators *)

(** What [ctutil] imports.  [World] is the state of everything behind the
    transport (the network, the log servers); a transport call consumes a
    world and yields the next one.  A call that returns [(x, err)] in Go
    returns here either the error or the (non-nil) value. *)
Class Collaborators := {
  CheckLogClient : Type;
  SignatureVerifier : Type;
  PublicKeyT : Type;
  HttpClient : Type;
  Ctx : Type;
  World : Type;
  (** [client.CheckLogClient] interface *)
  GetSTH : CheckLogClient -> Ctx -> World -> (error + SignedTreeHead) * World;
  GetProofByHash :
    CheckLogClient -> Ctx -> bytes -> Z -> World ->
    (error + GetProofByHashResponse) * World;
  (** [ct.SignatureVerifier.VerifySCTSignature], on the SCT and the leaf
      with the entry it refers to *)
  Verifier_VerifySCTSignature :
    SignatureVerifier -> SignedCertificateTimestamp -> MerkleTreeLeaf ->
    TimestampedEntry -> option error;
  (** [ct.LeafHashForLeaf], on the leaf with the entry it refers to *)
  LeafHashForLeaf : MerkleTreeLeaf -> TimestampedEntry -> error + bytes;
  (** [merkle.LogVerifier.VerifyInclusionProof] with the RFC 6962 hasher *)
  VerifyInclusionProof : Z -> Z -> list bytes -> bytes -> bytes -> option error;
  (** [client.New], [dnsclient.New] *)
  client_New : string -> HttpClient -> Options -> error + CheckLogClient;
  dnsclient_New : string -> Options -> error + CheckLogClient;
  (** [x509.ParsePKIXPublicKey], [ct.NewSignatureVerifier] *)
  ParsePKIXPublicKey : bytes -> error + PublicKeyT;
  NewSignatureVerifier : PublicKeyT -> error + SignatureVerifier;
  (** [sha256.Sum256] *)
  Sum256 : bytes -> bytes;
  (** [strconv.Quote], the rendering of [%q] *)
  Quote : string -> string
}.

Section CTUtil.

Context {C : Collaborators}.

(** ** [LogInfo] *)

(** The [mu] field guards [lastSTH]; the embedding is sequential and has
    no counterpart for it. *)
Record LogInfo := {
  Description : string;
  Client : CheckLogClient;
  MMD : Z;
  Verifier : SignatureVerifier;
  PublicKey : bytes;
  lastSTH : option SignedTreeHead
}.

Definition with_lastSTH (sth : option SignedTreeHead) (li : LogInfo) : LogInfo :=
  {| Description := Description li;
     Client := Client li;
     MMD := MMD li;
     Verifier := Verifier li;
     PublicKey := PublicKey li;
     lastSTH := sth |}.

(** ** Calls made to the collaborators, in the order they happen *)

Inductive Event :=
| EvStoreTimestamp (p : loc) (ts : Z)
| EvVerifySCTSignature (sct : SignedCertificateTimestamp)
    (leaf : MerkleTreeLeaf) (e : TimestampedEntry)
| EvLeafHashForLeaf (leaf : MerkleTreeLeaf) (e : TimestampedEntry)
| EvGetSTH (r : error + SignedTreeHead)
| EvSetSTH (sth : option SignedTreeHead)
| EvGetProofByHash (leafHash : bytes) (treeSize : Z)
    (r : error + GetProofByHashResponse)
| EvVerifyInclusionProof (leafIndex treeSize : Z) (auditPath : list bytes)
    (rootHash leafHash : bytes).

(** ** Program state and the monad of method bodies *)

Record State := {
  receiver : LogInfo;                    (* the object [li] points to *)
  heap : loc -> TimestampedEntry;        (* the timestamped entries *)
  world : World;
  trace : list Event
}.

Definition emit (ev : Event) (s : State) : State :=
  {| receiver := receiver s; heap := heap s; world := world s;
     trace := trace s ++ [ev] |}.

Definition with_receiver (li : LogInfo) (s : State) : State :=
  {| receiver := li; heap := heap s; world := world s; trace := trace s |}.

Definition with_world (w : World) (s : State) : State :=
  {| receiver := receiver s; heap := heap s; world := w; trace := trace s |}.

Definition store (p : loc) (e : TimestampedEntry) (s : State) : State :=
  {| receiver := receiver s;
     heap := fun q => if Nat.eqb q p then e else heap s q;
     world := world s; trace := trace s |}.

Definition M (A : Type) : Type := State -> Outcome A * State.

Definition ret {A} (a : A) : M A := fun s => (Returned a, s).

Definition bind {A B} (m : M A) (k : A -> M B) : M B :=
  fun s =>
    match m s with
    | (Returned a, s') => k a s'
    | (Panicked, s') => (Panicked, s')
    end.

Definition panic {A} : M A := fun s => (Panicked, s).

Notation "x <- m ;; k" := (bind m (fun x => k))
  (at level 100, m at next level, right associativity).
Notation "m ;;; k" := (bind m (fun _ => k))
  (at level 100, right associativity).

(** [leaf.TimestampedEntry.Timestamp = ts] *)
Definition store_Timestamp (leaf : MerkleTreeLeaf) (ts : Z) : M loc :=
  match TimestampedEntry_ptr leaf with
  | None => panic
  | Some p =>
      fun s => (Returned p, emit (EvStoreTimestamp p ts)
                              (store p (set_Timestamp ts (heap s p)) s))
  end.

Definition load (p : loc) : M TimestampedEntry :=
  fun s => (Returned (heap s p), s).

Definition call_LeafHashForLeaf (leaf : MerkleTreeLeaf) (p : loc) : M (error + bytes) :=
  e <- load p ;;
  fun s => (Returned (LeafHashForLeaf leaf e), emit (EvLeafHashForLeaf leaf e) s).

Definition call_VerifySCTSignature (v : SignatureVerifier)
    (sct : SignedCertificateTimestamp) (leaf : MerkleTreeLeaf) (p : loc)
  : M (option error) :=
  e <- load p ;;
  fun s => (Returned (Verifier_VerifySCTSignature v sct leaf e),
            emit (EvVerifySCTSignature sct leaf e) s).

Definition call_GetSTH (c : CheckLogClient) (ctx : Ctx) : M (error + SignedTreeHead) :=
  fun s =>
    let '(r, w) := GetSTH c ctx (world s) in
    (Returned r, emit (EvGetSTH r) (with_world w s)).

Definition call_GetProofByHash (c : CheckLogClient) (ctx : Ctx)
    (leafHash : bytes) (treeSize : Z) : M (error + GetProofByHashResponse) :=
  fun s =>
    let '(r, w) := GetProofByHash c ctx leafHash treeSize (world s) in
    (Returned r, emit (EvGetProofByHash leafHash treeSize r) (with_world w s)).

Definition call_VerifyInclusionProof (leafIndex treeSize : Z)
    (auditPath : list bytes) (rootHash leafHash : bytes) : M (option error) :=
  fun s =>
    (Returned (VerifyInclusionProof leafIndex treeSize auditPath rootHash leafHash),
     emit (EvVerifyInclusionProof leafIndex treeSize auditPath rootHash leafHash) s).

Definition self : M LogInfo := fun s => (Returned (receiver s), s).

(** ** Methods of [LogInfo] *)

(** [LastSTH] returns the last STH known for the log. *)
Definition LastSTH : M (option SignedTreeHead) :=
  li <- self ;;
  ret (lastSTH li).

(** [SetSTH] sets the last STH known for the log. *)
Definition SetSTH (sth : option SignedTreeHead) : M unit :=
  fun s => (Returned tt, emit (EvSetSTH sth)
                           (with_receiver (with_lastSTH sth (receiver s)) s)).

(** [VerifySCTSignature] checks the signature in the SCT matches the given
    leaf (adjusted for the timestamp in the SCT) and log. *)
Definition VerifySCTSignature (sct : SignedCertificateTimestamp)
    (leaf : MerkleTreeLeaf) : M (option error) :=
  li <- self ;;
  p <- store_Timestamp leaf (SCT_Timestamp sct) ;;
  r <- call_VerifySCTSignature (Verifier li) sct leaf p ;;
  match r with
  | Some err =>
      ret (Some ("failed to verify SCT signature from log " +:+
                 Quote (Description li) +:+ ": " +:+ err))
  | None => ret None
  end.

(** [VerifyInclusionAt] checks that the given Merkle tree leaf, adjusted
    for the provided timestamp, is present in the given tree size and root
    hash of the log. *)
Definition VerifyInclusionAt (ctx : Ctx) (leaf : MerkleTreeLeaf)
    (timestamp treeSize : Z) (rootHash : bytes) : M (Z * option error) :=
  li <- self ;;
  p <- store_Timestamp leaf timestamp ;;
  r <- call_LeafHashForLeaf leaf p ;;
  match r with
  | inl err => ret (-1, Some ("failed to create leaf hash: " +:+ err))
  | inr leafHash =>
      r <- call_GetProofByHash (Client li) ctx leafHash treeSize ;;
      match r with
      | inl err =>
          ret (-1, Some ("failed to GetProofByHash(sct,size=" +:+ pretty treeSize
                         +:+ "): " +:+ err))
      | inr rsp =>
          r <- call_VerifyInclusionProof (LeafIndex rsp)
                 (int64_of_uint64 treeSize) (AuditPath rsp) rootHash leafHash ;;
          match r with
          | Some err =>
              ret (-1, Some ("failed to verify inclusion proof at size "
                             +:+ pretty treeSize +:+ ": " +:+ err))
          | None => ret (LeafIndex rsp, None)
          end
      end
  end.

(** [VerifyInclusionLatest] checks the leaf against the latest known tree
    size of the log; if no tree size is known, it is queried. *)
Definition VerifyInclusionLatest (ctx : Ctx) (leaf : MerkleTreeLeaf)
    (timestamp : Z) : M (Z * option error) :=
  li <- self ;;
  sth <- LastSTH ;;
  match sth with
  | Some sth =>
      VerifyInclusionAt ctx leaf timestamp (TreeSize sth) (SHA256RootHash sth)
  | None =>
      r <- call_GetSTH (Client li) ctx ;;
      match r with
      | inl err =>
          ret (-1, Some ("failed to get current STH for " +:+
                         Quote (Description li) +:+ " log: " +:+ err))
      | inr sth =>
          SetSTH (Some sth) ;;;
          VerifyInclusionAt ctx leaf timestamp (TreeSize sth) (SHA256RootHash sth)
      end
  end.

(** [VerifyInclusion] checks the leaf against the current tree size of the
    log. *)
Definition VerifyInclusion (ctx : Ctx) (leaf : MerkleTreeLeaf)
    (timestamp : Z) : M (Z * option error) :=
  li <- self ;;
  r <- call_GetSTH (Client li) ctx ;;
  match r with
  | inl err =>
      ret (-1, Some ("failed to get current STH for " +:+
                     Quote (Description li) +:+ " log: " +:+ err))
  | inr sth =>
      SetSTH (Some sth) ;;;
      VerifyInclusionAt ctx leaf timestamp (TreeSize sth) (SHA256RootHash sth)
  end.

(** ** Construction of [LogInfo] objects and of the registry *)

(** The constructors return [(nil, err)] or [(li, nil)] with [li] a new
    object: either the error or the [LogInfo]. *)
Definition newLogInfo (log : Log) (lc : CheckLogClient) : error + LogInfo :=
  match ParsePKIXPublicKey (Key log) with
  | inl err =>
      inl ("failed to parse public key data for log " +:+
           Quote (Log_Description log) +:+ ": " +:+ err)
  | inr logKey =>
      match NewSignatureVerifier logKey with
      | inl err =>
          inl ("failed to build verifier log " +:+
               Quote (Log_Description log) +:+ ": " +:+ err)
      | inr verifier =>
          let mmd := wrap_int64 (MaximumMergeDelay log * time_Second) in
          inr {| Description := Log_Description log;
                 Client := lc;
                 MMD := mmd;
                 Verifier := verifier;
                 PublicKey := Key log;
                 lastSTH := None |}
      end
  end.

(** [NewLogInfo] builds a [LogInfo] object based on a log list entry. *)
Definition NewLogInfo (log : Log) (hc : HttpClient) : error + LogInfo :=
  let url := URL log in
  let url := if String.prefix "https://" url then url else "https://" +:+ url in
  match client_New url hc
          {| PublicKeyDER := Key log; UserAgent := "ct-go-logclient" |} with
  | inl err =>
      inl ("failed to create client for log " +:+
           Quote (Log_Description log) +:+ ": " +:+ err)
  | inr lc => newLogInfo log lc
  end.

(** [NewLogInfoOverDNS] builds a [LogInfo] object that accesses logs via DNS. *)
Definition NewLogInfoOverDNS (log : Log) : error + LogInfo :=
  if String.eqb (DNSAPIEndpoint log) "" then
    inl ("no available DNS endpoint for log " +:+ Quote (Log_Description log))
  else
    match dnsclient_New (DNSAPIEndpoint log)
            {| PublicKeyDER := Key log; UserAgent := "" |} with
    | inl err =>
        inl ("failed to create DNS client for log " +:+
             Quote (Log_Description log) +:+ ": " +:+ err)
    | inr dc => newLogInfo log dc
    end.

(** The inert [http.Client] argument allows this variant to be used
    interchangeably with [NewLogInfo]. *)
Definition NewLogInfoOverDNSWrapper (log : Log) (_ : HttpClient)
  : error + LogInfo :=
  NewLogInfoOverDNS log.

(** The loop of [logInfoByKeyHash] over the remaining logs, [result] being
    the map built so far.  The function returns [(nil, err)] or
    [(result, nil)]. *)
Fixpoint logInfoByKeyHash_range (logs : list Log) (hc : HttpClient)
    (infoFactory : Log -> HttpClient -> error + LogInfo)
    (result : gmap bytes LogInfo)
  : option (gmap bytes LogInfo) * option error :=
  match logs with
  | [] => (Some result, None)
  | log :: logs' =>
      let h := Sum256 (Key log) in
      match infoFactory log hc with
      | inl err => (None, Some err)
      | inr li =>
          logInfoByKeyHash_range logs' hc infoFactory (<[h := li]> result)
      end
  end.

Definition logInfoByKeyHash (ll : LogList) (hc : HttpClient)
    (infoFactory : Log -> HttpClient -> error + LogInfo)
  : option (gmap bytes LogInfo) * option error :=
  logInfoByKeyHash_range (Logs ll) hc infoFactory ∅.

(** [LogInfoByKeyHash] builds a map of [LogInfo] objects indexed by their
    key hashes. *)
Definition LogInfoByKeyHash (ll : LogList) (hc : HttpClient) :=
  logInfoByKeyHash ll hc NewLogInfo.

(** [LogInfoByKeyHashOverDNS] builds a map of [LogInfo] objects (for access
    over DNS) indexed by their key hashes. *)
Definition LogInfoByKeyHashOverDNS (ll : LogList) (hc : HttpClient) :=
  logInfoByKeyHash ll hc NewLogInfoOverDNSWrapper.

(** ** Reading traces *)

(** Number of tree-head fetches in a trace. *)
Fixpoint fetches (t : list Event) : nat :=
  match t with
  | [] => 0%nat
  | EvGetSTH _ :: t' => S (fetches t')
  | _ :: t' => fetches t'
  end.

(** The state once a tree head [sth] was fetched (leaving the world [w])
    and stored in the cache. *)
Definition after_fetch (sth : SignedTreeHead) (w : World) (s : State) : State :=
  emit (EvSetSTH (Some sth))
    (with_receiver (with_lastSTH (Some sth) (receiver s))
       (emit (EvGetSTH (inr sth)) (with_world w s))).

(** The state once a tree-head fetch failed with [err]. *)
Definition after_failed_fetch (err : error) (w : World) (s : State) : State :=
  emit (EvGetSTH (inl err)) (with_world w s).

(** The error of a failed tree-head fetch. *)
Definition fetch_error (li : LogInfo) (err : error) : error :=
  "failed to get current STH for " +:+ Quote (Description li) +:+ " log: " +:+ err.

(** The index returned with an error is [-1]; the index returned without
    is the one of an inclusion-proof response the transport gave during
    the call, the last thing the call asked of it. *)
Definition index_agrees (ctx : Ctx) (s : State) (idx : Z) (err : option error)
    (s' : State) : Prop :=
  (err <> None -> idx = -1) /\
  (err = None ->
   exists leafHash treeSize rsp w evs,
     GetProofByHash (Client (receiver s)) ctx leafHash treeSize w
       = (inr rsp, world s') /\
     trace s' = trace s ++ evs /\
     In (EvGetProofByHash leafHash treeSize (inr rsp)) evs /\
     idx = LeafIndex rsp).

(** [err] is the error [VerifyInclusionAt] makes from the state [s]: the
    text of the step that failed, the tree size where the text has one,
    and the error that step got. *)
Definition inclusion_at_error_of (ctx : Ctx) (leaf : MerkleTreeLeaf)
    (timestamp treeSize : Z) (rootHash : bytes) (s : State) (err : error)
  : Prop :=
  exists p,
    TimestampedEntry_ptr leaf = Some p /\
    ((exists cause,
        LeafHashForLeaf leaf (set_Timestamp timestamp (heap s p)) = inl cause /\
        err = "failed to create leaf hash: " +:+ cause) \/
     (exists leafHash cause w,
        LeafHashForLeaf leaf (set_Timestamp timestamp (heap s p)) = inr leafHash /\
        GetProofByHash (Client (receiver s)) ctx leafHash treeSize (world s)
          = (inl cause, w) /\
        err = "failed to GetProofByHash(sct,size=" +:+ pretty treeSize +:+ "): "
                +:+ cause) \/
     (exists leafHash rsp w cause,
        LeafHashForLeaf leaf (set_Timestamp timestamp (heap s p)) = inr leafHash /\
        GetProofByHash (Client (receiver s)) ctx leafHash treeSize (world s)
          = (inr rsp, w) /\
        VerifyInclusionProof (LeafIndex rsp) (int64_of_uint64 treeSize)
          (AuditPath rsp) rootHash leafHash = Some cause /\
        err = "failed to verify inclusion proof at size " +:+ pretty treeSize
                +:+ ": " +:+ cause)).

(** The same [LogInfo] under the description [d]. *)
Definition with_Description (d : string) (li : LogInfo) : LogInfo :=
  {| Description := d;
     Client := Client li;
     MMD := MMD li;
     Verifier := Verifier li;
     PublicKey := PublicKey li;
     lastSTH := lastSTH li |}.

(** ** The registry, as the specification describes it *)

(** The [LogInfo] a factory builds for a log, if it builds one. *)
Definition built (infoFactory : Log -> HttpClient -> error + LogInfo)
    (hc : HttpClient) (log : Log) : option LogInfo :=
  match infoFactory log hc with
  | inr li => Some li
  | inl _ => None
  end.

(** The last log of the list whose key has hash [h]. *)
Fixpoint last_with_hash (h : bytes) (logs : list Log) : option Log :=
  match logs with
  | [] => None
  | log :: logs' =>
      match last_with_hash h logs' with
      | Some l => Some l
      | None => if decide (Sum256 (Key log) = h) then Some log else None
      end
  end.

(** The factory builds a [LogInfo] for the log. *)
Definition builds (infoFactory : Log -> HttpClient -> error + LogInfo)
    (hc : HttpClient) (log : Log) : Prop :=
  exists li, infoFactory log hc = inr li.

(** The error text carries the description of the log, as [%q] renders it. *)
Definition names_log (description : string) (err : error) : Prop :=
  Contains err (Quote description) = true.

(** Construction is all or nothing.  If a log of the list cannot be built
    the result is the error for the first such log, which names it, and no
    map.  If every log can be built the result is a map that holds, at the
    hash of each key, the [LogInfo] built from the last log with that
    hash, and nothing else: one [LogInfo] per log when the hashes of the
    keys differ. *)
Definition all_or_nothing (infoFactory : Log -> HttpClient -> error + LogInfo)
    (ll : LogList) (hc : HttpClient)
    (res : option (gmap bytes LogInfo) * option error) : Prop :=
  (forall pre log post err,
     Logs ll = pre ++ log :: post ->
     Forall (builds infoFactory hc) pre ->
     infoFactory log hc = inl err ->
     res = (None, Some err) /\ names_log (Log_Description log) err) /\
  (Forall (builds infoFactory hc) (Logs ll) ->
   exists m,
     res = (Some m, None) /\
     (forall h, m !! h = last_with_hash h (Logs ll) ≫= built infoFactory hc) /\
     (NoDup (map (fun l => Sum256 (Key l)) (Logs ll)) ->
      size m = length (Logs ll))).

(** ** The steps of [VerifyInclusionAt], as the specification lists them *)

(** [reaches s p e w evs s'] : from [s], the entry at [p] has become [e],
    the world [w], the calls [evs] were made in this order and nothing
    else changed. *)
Definition reaches (s : State) (p : loc) (e : TimestampedEntry) (w : World)
    (evs : list Event) (s' : State) : Prop :=
  receiver s' = receiver s /\
  (forall q, heap s' q = if Nat.eqb q p then e else heap s q) /\
  world s' = w /\
  trace s' = trace s ++ evs.

Inductive InclusionAtSteps (ctx : Ctx) (leaf : MerkleTreeLeaf)
    (timestamp treeSize : Z) (rootHash : bytes) (p : loc) (s : State)
  : Z * option error -> State -> Prop :=
| steps_encoding_error e err s' :
    e = set_Timestamp timestamp (heap s p) ->
    LeafHashForLeaf leaf e = inl err ->
    reaches s p e (world s)
      [EvStoreTimestamp p timestamp; EvLeafHashForLeaf leaf e] s' ->
    InclusionAtSteps ctx leaf timestamp treeSize rootHash p s
      (-1, Some ("failed to create leaf hash: " +:+ err)) s'
| steps_transport_error e leafHash err w s' :
    e = set_Timestamp timestamp (heap s p) ->
    LeafHashForLeaf leaf e = inr leafHash ->
    GetProofByHash (Client (receiver s)) ctx leafHash treeSize (world s)
      = (inl err, w) ->
    reaches s p e w
      [EvStoreTimestamp p timestamp; EvLeafHashForLeaf leaf e;
       EvGetProofByHash leafHash treeSize (inl err)] s' ->
    InclusionAtSteps ctx leaf timestamp treeSize rootHash p s
      (-1, Some ("failed to GetProofByHash(sct,size=" +:+ pretty treeSize
                 +:+ "): " +:+ err)) s'
| steps_proof_invalid e leafHash rsp err w s' :
    e = set_Timestamp timestamp (heap s p) ->
    LeafHashForLeaf leaf e = inr leafHash ->
    GetProofByHash (Client (receiver s)) ctx leafHash treeSize (world s)
      = (inr rsp, w) ->
    VerifyInclusionProof (LeafIndex rsp) (int64_of_uint64 treeSize)
      (AuditPath rsp) rootHash leafHash = Some err ->
    reaches s p e w
      [EvStoreTimestamp p timestamp; EvLeafHashForLeaf leaf e;
       EvGetProofByHash leafHash treeSize (inr rsp);
       EvVerifyInclusionProof (LeafIndex rsp) (int64_of_uint64 treeSize)
         (AuditPath rsp) rootHash leafHash] s' ->
    InclusionAtSteps ctx leaf timestamp treeSize rootHash p s
      (-1, Some ("failed to verify inclusion proof at size "
                 +:+ pretty treeSize +:+ ": " +:+ err)) s'
| steps_included e leafHash rsp w s' :
    e = set_Timestamp timestamp (heap s p) ->
    LeafHashForLeaf leaf e = inr leafHash ->
    GetProofByHash (Client (receiver s)) ctx leafHash treeSize (world s)
      = (inr rsp, w) ->
    VerifyInclusionProof (LeafIndex rsp) (int64_of_uint64 treeSize)
      (AuditPath rsp) rootHash leafHash = None ->
    reaches s p e w
      [EvStoreTimestamp p timestamp; EvLeafHashForLeaf leaf e;
       EvGetProofByHash leafHash treeSize (inr rsp);
       EvVerifyInclusionProof (LeafIndex rsp) (int64_of_uint64 treeSize)
         (AuditPath rsp) rootHash leafHash] s' ->
    InclusionAtSteps ctx leaf timestamp treeSize rootHash p s
      (LeafIndex rsp, None) s'.

(** The options [NewLogInfo] and [NewLogInfoOverDNS] create their client
    with. *)
Definition http_options (log : Log) : Options :=
  {| PublicKeyDER := Key log; UserAgent := "ct-go-logclient" |}.

Definition dns_options (log : Log) : Options :=
  {| PublicKeyDER := Key log; UserAgent := "" |}.

(** The steps again, told of the entry [e] that is stored and hashed and
    of the size [size64] the Merkle verifier is called with. *)
Inductive InclusionAtOrder (ctx : Ctx) (leaf : MerkleTreeLeaf)
    (timestamp treeSize : Z) (rootHash : bytes) (p : loc)
    (e : TimestampedEntry) (size64 : Z) (s : State)
  : Z * option error -> State -> Prop :=
| order_encoding_error err s' :
    LeafHashForLeaf leaf e = inl err ->
    reaches s p e (world s)
      [EvStoreTimestamp p timestamp; EvLeafHashForLeaf leaf e] s' ->
    InclusionAtOrder ctx leaf timestamp treeSize rootHash p e size64 s
      (-1, Some ("failed to create leaf hash: " +:+ err)) s'
| order_transport_error leafHash err w s' :
    LeafHashForLeaf leaf e = inr leafHash ->
    GetProofByHash (Client (receiver s)) ctx leafHash treeSize (world s)
      = (inl err, w) ->
    reaches s p e w
      [EvStoreTimestamp p timestamp; EvLeafHashForLeaf leaf e;
       EvGetProofByHash leafHash treeSize (inl err)] s' ->
    InclusionAtOrder ctx leaf timestamp treeSize rootHash p e size64 s
      (-1, Some ("failed to GetProofByHash(sct,size=" +:+ pretty treeSize
                 +:+ "): " +:+ err)) s'
| order_proof_invalid leafHash rsp err w s' :
    LeafHashForLeaf leaf e = inr leafHash ->
    GetProofByHash (Client (receiver s)) ctx leafHash treeSize (world s)
      = (inr rsp, w) ->
    VerifyInclusionProof (LeafIndex rsp) size64 (AuditPath rsp) rootHash leafHash
      = Some err ->
    reaches s p e w
      [EvStoreTimestamp p timestamp; EvLeafHashForLeaf leaf e;
       EvGetProofByHash leafHash treeSize (inr rsp);
       EvVerifyInclusionProof (LeafIndex rsp) size64 (AuditPath rsp)
         rootHash leafHash] s' ->
    InclusionAtOrder ctx leaf timestamp treeSize rootHash p e size64 s
      (-1, Some ("failed to verify inclusion proof at size "
                 +:+ pretty treeSize +:+ ": " +:+ err)) s'
| order_included leafHash rsp w s' :
    LeafHashForLeaf leaf e = inr leafHash ->
    GetProofByHash (Client (receiver s)) ctx leafHash treeSize (world s)
      = (inr rsp, w) ->
    VerifyInclusionProof (LeafIndex rsp) size64 (AuditPath rsp) rootHash leafHash
      = None ->
    reaches s p e w
      [EvStoreTimestamp p timestamp; EvLeafHashForLeaf leaf e;
       EvGetProofByHash leafHash treeSize (inr rsp);
       EvVerifyInclusionProof (LeafIndex rsp) size64 (AuditPath rsp)
         rootHash leafHash] s' ->
    InclusionAtOrder ctx leaf timestamp treeSize rootHash p e size64 s
      (LeafIndex rsp, None) s'.

(** [m] is the registry built from [ll], over HTTP or over DNS. *)
Definition in_registry (ll : LogList) (hc : HttpClient)
    (m : gmap bytes LogInfo) : Prop :=
  LogInfoByKeyHash ll hc = (Some m, None) \/
  LogInfoByKeyHashOverDNS ll hc = (Some m, None).

(** Number of calls to the transport (tree-head fetches and proof
    requests) in a trace. *)
Fixpoint transport_calls (t : list Event) : nat :=
  match t with
  | [] => 0%nat
  | EvGetSTH _ :: t' => S (transport_calls t')
  | EvGetProofByHash _ _ _ :: t' => S (transport_calls t')
  | _ :: t' => transport_calls t'
  end.

(** The same state with the entry at [p] carrying the timestamp [t0]. *)
Definition with_old_timestamp (p : loc) (t0 : Z) (s : State) : State :=
  store p (set_Timestamp t0 (heap s p)) s.

(** The same state with [c] in the cache. *)
Definition with_cache (c : option SignedTreeHead) (s : State) : State :=
  with_receiver (with_lastSTH c (receiver s)) s.

End CTUtil.

(** * A test log

    Concrete collaborators in the manner of the package's test doubles:
    client [0] is a log that cannot be reached, every other client serves
    a 10-leaf tree and reports the leaf at index 5. *)

Module TestLog.

Definition dquote : string := String (ascii_of_nat 34) EmptyString.

(** [strconv.Quote] on text without quotes, backslashes or control
    characters: the text between double quotes. *)
Definition plain_Quote (s : string) : string := dquote +:+ s +:+ dquote.

Definition root10 : bytes := repeat "042"%byte 32.

Definition sth10 : SignedTreeHead :=
  {| TreeSize := 10; STH_Timestamp := 1700000000000;
     SHA256RootHash := root10; TreeHeadSignature := ["001"%byte] |}.

Definition sth20 : SignedTreeHead :=
  {| TreeSize := 20; STH_Timestamp := 1700000001000;
     SHA256RootHash := repeat "023"%byte 32; TreeHeadSignature := ["002"%byte] |}.

Definition test_GetSTH (c : nat) (_ : unit) (w : nat)
  : (error + SignedTreeHead) * nat :=
  match c with
  | O => (inl "context deadline exceeded", S w)
  | _ => (inr sth10, S w)
  end.

Definition test_GetProofByHash (c : nat) (_ : unit) (leafHash : bytes)
    (treeSize : Z) (w : nat) : (error + GetProofByHashResponse) * nat :=
  match c with
  | O => (inl "context deadline exceeded", S w)
  | _ => (inr {| LeafIndex := 5; AuditPath := [] |}, S w)
  end.

Definition test_VerifySCTSignature (_ : unit) (sct : SignedCertificateTimestamp)
    (_ : MerkleTreeLeaf) (_ : TimestampedEntry) : option error :=
  match SCT_Signature sct with
  | [] => Some "no signature"
  | _ => None
  end.

Definition test_LeafHashForLeaf (_ : MerkleTreeLeaf) (e : TimestampedEntry)
  : error + bytes :=
  if EntryType e =? 0 then inr (repeat "007"%byte 32)
  else inl "unknown entry type".

Definition test_VerifyInclusionProof (leafIndex treeSize : Z)
    (_ : list bytes) (rootHash _ : bytes) : option error :=
  if (0 <=? leafIndex) && (leafIndex <? treeSize)
     && bool_decide (rootHash = root10)
  then None else Some "calculated root mismatch".

Definition test_ParsePKIXPublicKey (der : bytes) : error + unit :=
  match der with
  | [] => inl "asn1: syntax error: sequence truncated"
  | _ => inr tt
  end.

(** The examples only need equal keys to have equal hashes and the keys
    used to have different ones; the key itself stands for its hash. *)
Definition test_Sum256 (b : bytes) : bytes := b.

Definition env : Collaborators :=
  {| CheckLogClient := nat;
     SignatureVerifier := unit;
     PublicKeyT := unit;
     HttpClient := unit;
     Ctx := unit;
     World := nat;
     GetSTH := test_GetSTH;
     GetProofByHash := test_GetProofByHash;
     Verifier_VerifySCTSignature := test_VerifySCTSignature;
     LeafHashForLeaf := test_LeafHashForLeaf;
     VerifyInclusionProof := test_VerifyInclusionProof;
     client_New := fun _ _ _ => inr 1%nat;
     dnsclient_New := fun _ _ => inr 2%nat;
     ParsePKIXPublicKey := test_ParsePKIXPublicKey;
     NewSignatureVerifier := fun _ => inr tt;
     Sum256 := test_Sum256;
     Quote := plain_Quote |}.

Definition key1 : bytes := ["048"%byte; "089"%byte; "001"%byte].
Definition key2 : bytes := ["048"%byte; "089"%byte; "002"%byte].

Definition test_log : Log :=
  {| Log_Description := "Test Log"; Key := key1; URL := "log.example.com/ct";
     DNSAPIEndpoint := "log.example.com"; MaximumMergeDelay := 86400 |}.

(** The [LogInfo] of the test log talking to client [c], with [sth] cached. *)
Definition test_li (c : nat) (sth : option SignedTreeHead) : LogInfo (C := env) :=
  {| Description := "Test Log"; Client := c : CheckLogClient (Collaborators := env);
     MMD := 86400000000000;
     Verifier := tt : SignatureVerifier (Collaborators := env);
     PublicKey := key1; lastSTH := sth |}.

Definition entry0 : TimestampedEntry :=
  {| Timestamp := 1; EntryType := 0; EntryData := ["010"%byte] |}.

(** The caller's leaf, its timestamped entry at location [0]. *)
Definition leaf0 : MerkleTreeLeaf :=
  {| Version := 0; LeafType := 0; TimestampedEntry_ptr := Some 0%nat |}.

Definition start (c : nat) (sth : option SignedTreeHead) : State (C := env) :=
  {| receiver := test_li c sth; heap := fun _ => entry0;
     world := 0%nat : World (Collaborators := env); trace := [] |}.



Definition sct99 : SignedCertificateTimestamp :=
  {| SCT_Timestamp := 99; SCT_Signature := ["001"%byte] |}.

Definition unsigned_sct : SignedCertificateTimestamp :=
  {| SCT_Timestamp := 99; SCT_Signature := [] |}.

Definition other_log : Log :=
  {| Log_Description := "Other Log"; Key := key2; URL := "https://other.example.com";
     DNSAPIEndpoint := ""; MaximumMergeDelay := 86400 |}.

Definition keyless_log : Log :=
  {| Log_Description := "Keyless Log"; Key := []; URL := "keyless.example.com";
     DNSAPIEndpoint := "keyless.example.com"; MaximumMergeDelay := 86400 |}.

(** The same key listed twice, under two descriptions. *)
Definition mirror_log : Log :=
  {| Log_Description := "Mirror of Test Log"; Key := key1;
     URL := "mirror.example.com/ct"; DNSAPIEndpoint := "";
     MaximumMergeDelay := 3600 |}.

Definition two_logs : LogList := {| Logs := [test_log; other_log] |}.
Definition same_key_twice : LogList := {| Logs := [test_log; mirror_log] |}.
Definition one_keyless : LogList := {| Logs := [test_log; keyless_log; other_log] |}.

(** A leaf without timestamped entry. *)
Definition bare_leaf : MerkleTreeLeaf :=
  {| Version := 0; LeafType := 0; TimestampedEntry_ptr := None |}.

Definition two_logs_swapped : LogList := {| Logs := [other_log; test_log] |}.

(** The [LogInfo] built over HTTP for [other_log]. *)
Definition other_li : LogInfo (C := env) :=
  {| Description := "Other Log"; Client := 1%nat : CheckLogClient (Collaborators := env);
     MMD := 86400000000000;
     Verifier := tt : SignatureVerifier (Collaborators := env);
     PublicKey := key2; lastSTH := None |}.

(** The registry built over HTTP from [two_logs]. *)
Definition two_logs_registry : gmap bytes (LogInfo (C := env)) :=
  <[key2 := other_li]> (<[key1 := test_li 1 None]> ∅).

End TestLog.

(** * Properties *)

Section Properties.

Context {C : Collaborators}.

Lemma fetches_app (t u : list Event) :
  fetches (t ++ u) = (fetches t + fetches u)%nat.
Proof.
  induction t as [|ev t IH]; simpl; [reflexivity|].
  destruct ev; simpl; rewrite IH; reflexivity.
Qed.

Lemma int64_of_uint64_small (x : Z) :
  0 <= x < 2 ^ 63 -> int64_of_uint64 x = x.
Proof.
  intros H. unfold int64_of_uint64, wrap_int64.
  rewrite Z.mod_small; lia.
Qed.

(** Unfolding of the monad, for symbolic runs of method bodies. *)
Ltac run :=
  unfold VerifyInclusion, VerifyInclusionLatest, VerifyInclusionAt,
    VerifySCTSignature, LastSTH, SetSTH, store_Timestamp,
    call_LeafHashForLeaf, call_VerifySCTSignature, call_GetSTH,
    call_GetProofByHash, call_VerifyInclusionProof, load, self, bind, ret,
    panic in *;
  simpl in *.

Lemma reaches_intro (s : State) p e w evs s' :
  receiver s' = receiver s ->
  (forall q, heap s' q = if Nat.eqb q p then e else heap s q) ->
  world s' = w ->
  trace s' = trace s ++ evs ->
  reaches s p e w evs s'.
Proof. unfold reaches. auto. Qed.

(** Every run of [VerifyInclusionAt] on a leaf with an entry follows the
    listed steps. *)
Lemma VerifyInclusionAt_run
    (ctx : Ctx) (leaf : MerkleTreeLeaf) (timestamp treeSize : Z)
    (rootHash : bytes) (p : loc) (s : State) :
  TimestampedEntry_ptr leaf = Some p ->
  exists r s',
    VerifyInclusionAt ctx leaf timestamp treeSize rootHash s = (Returned r, s') /\
    InclusionAtSteps ctx leaf timestamp treeSize rootHash p s r s'.
Proof.
  intros Hp. run. rewrite Hp. simpl.
  rewrite Nat.eqb_refl.
  set (e := set_Timestamp timestamp (heap s p)).
  destruct (LeafHashForLeaf leaf e) as [err|leafHash] eqn:Hh; simpl.
  { eexists _, _. split; [reflexivity|].
    eapply steps_encoding_error; eauto.
    apply reaches_intro; simpl; auto. rewrite <- app_assoc. reflexivity. }
  destruct (GetProofByHash (Client (receiver s)) ctx leafHash treeSize (world s))
    as [[err|rsp] w] eqn:Hg; simpl.
  { eexists _, _. split; [reflexivity|].
    eapply steps_transport_error; eauto.
    apply reaches_intro; simpl; auto. rewrite <- !app_assoc. reflexivity. }
  destruct (VerifyInclusionProof (LeafIndex rsp) (int64_of_uint64 treeSize)
              (AuditPath rsp) rootHash leafHash) as [err|] eqn:Hv; simpl.
  { eexists _, _. split; [reflexivity|].
    eapply steps_proof_invalid; eauto.
    apply reaches_intro; simpl; auto. rewrite <- !app_assoc. reflexivity. }
  eexists _, _. split; [reflexivity|].
  eapply steps_included; eauto.
  apply reaches_intro; simpl; auto. rewrite <- !app_assoc. reflexivity.
Qed.


(** On a leaf without entry the store of the timestamp panics at once. *)
Lemma VerifyInclusionAt_nil
    (ctx : Ctx) (leaf : MerkleTreeLeaf) (timestamp treeSize : Z)
    (rootHash : bytes) (s : State) :
  TimestampedEntry_ptr leaf = None ->
  VerifyInclusionAt ctx leaf timestamp treeSize rootHash s = (Panicked, s).
Proof. intros Hp. run. rewrite Hp. reflexivity. Qed.

(** What the steps leave behind: the receiver, and no tree-head fetch. *)
Lemma InclusionAtSteps_frame ctx leaf timestamp treeSize rootHash p s r s' :
  InclusionAtSteps ctx leaf timestamp treeSize rootHash p s r s' ->
  receiver s' = receiver s /\
  (forall q, heap s' q =
             if Nat.eqb q p then set_Timestamp timestamp (heap s p) else heap s q) /\
  exists evs, trace s' = trace s ++ evs /\ fetches evs = 0%nat.
Proof.
  intros H.
  inversion H as [e err s1 He Hh [Hr [Hhp [Hw Ht]]]
                 |e lh err w s1 He Hh Hg [Hr [Hhp [Hw Ht]]]
                 |e lh rsp err w s1 He Hh Hg Hv [Hr [Hhp [Hw Ht]]]
                 |e lh rsp w s1 He Hh Hg Hv [Hr [Hhp [Hw Ht]]]]; subst;
    (split; [assumption|]; split; [assumption|]; eexists; split;
     [eassumption|reflexivity]).
Qed.

(** The index comes with the error: [-1] with an error, the index of the
    transport's response without. *)
Lemma InclusionAtSteps_index ctx leaf timestamp treeSize rootHash p s idx err s' :
  InclusionAtSteps ctx leaf timestamp treeSize rootHash p s (idx, err) s' ->
  (err <> None -> idx = -1) /\
  (err = None ->
   exists leafHash rsp evs,
     GetProofByHash (Client (receiver s)) ctx leafHash treeSize (world s)
       = (inr rsp, world s') /\
     trace s' = trace s ++ evs /\
     In (EvGetProofByHash leafHash treeSize (inr rsp)) evs /\
     idx = LeafIndex rsp).
Proof.
  intros H.
  inversion H as [e err' s1 He Hh [Hr [Hhp [Hw Ht]]]
                 |e lh err' w s1 He Hh Hg [Hr [Hhp [Hw Ht]]]
                 |e lh rsp err' w s1 He Hh Hg Hv [Hr [Hhp [Hw Ht]]]
                 |e lh rsp w s1 He Hh Hg Hv [Hr [Hhp [Hw Ht]]]]; subst;
    (split; [intros; try reflexivity; congruence|]); intros Hnone;
    try discriminate.
  do 3 eexists. split; [exact Hg|]. split; [exact Ht|].
  split; [|reflexivity]. simpl. auto.
Qed.

Lemma VerifyInclusionAt_frame
    (ctx : Ctx) (leaf : MerkleTreeLeaf) (timestamp treeSize : Z)
    (rootHash : bytes) (s : State) :
  receiver (snd (VerifyInclusionAt ctx leaf timestamp treeSize rootHash s))
    = receiver s /\
  exists evs,
    trace (snd (VerifyInclusionAt ctx leaf timestamp treeSize rootHash s))
      = trace s ++ evs /\
    fetches evs = 0%nat.
Proof.
  destruct (TimestampedEntry_ptr leaf) as [p|] eqn:Hp.
  - destruct (VerifyInclusionAt_run ctx leaf timestamp treeSize rootHash p s Hp)
      as (r & s' & Hrun & Hsteps).
    rewrite Hrun. simpl.
    destruct (InclusionAtSteps_frame _ _ _ _ _ _ _ _ _ Hsteps) as (Hr & _ & Hev).
    split; assumption.
  - rewrite VerifyInclusionAt_nil by assumption. simpl.
    split; [reflexivity|]. exists []. rewrite app_nil_r. split; reflexivity.
Qed.

(** *** The three cases of [VerifyInclusionLatest], the two of [VerifyInclusion] *)

Lemma VerifyInclusionLatest_cached ctx leaf timestamp s sth :
  lastSTH (receiver s) = Some sth ->
  VerifyInclusionLatest ctx leaf timestamp s
  = VerifyInclusionAt ctx leaf timestamp (TreeSize sth) (SHA256RootHash sth) s.
Proof.
  intros H. unfold VerifyInclusionLatest, LastSTH, self, bind, ret. simpl.
  rewrite H. reflexivity.
Qed.

Lemma VerifyInclusionLatest_fetch_ok ctx leaf timestamp s sth w :
  lastSTH (receiver s) = None ->
  GetSTH (Client (receiver s)) ctx (world s) = (inr sth, w) ->
  VerifyInclusionLatest ctx leaf timestamp s
  = VerifyInclusionAt ctx leaf timestamp (TreeSize sth) (SHA256RootHash sth)
      (after_fetch sth w s).
Proof.
  intros H Hg.
  unfold VerifyInclusionLatest, LastSTH, SetSTH, call_GetSTH, self, bind, ret.
  simpl. rewrite H, Hg. reflexivity.
Qed.

Lemma VerifyInclusionLatest_fetch_err ctx leaf timestamp s err w :
  lastSTH (receiver s) = None ->
  GetSTH (Client (receiver s)) ctx (world s) = (inl err, w) ->
  VerifyInclusionLatest ctx leaf timestamp s
  = (Returned (-1, Some (fetch_error (receiver s) err)),
     after_failed_fetch err w s).
Proof.
  intros H Hg.
  unfold VerifyInclusionLatest, LastSTH, SetSTH, call_GetSTH, self, bind, ret.
  simpl. rewrite H, Hg. reflexivity.
Qed.

Lemma VerifyInclusion_fetch_ok ctx leaf timestamp s sth w :
  GetSTH (Client (receiver s)) ctx (world s) = (inr sth, w) ->
  VerifyInclusion ctx leaf timestamp s
  = VerifyInclusionAt ctx leaf timestamp (TreeSize sth) (SHA256RootHash sth)
      (after_fetch sth w s).
Proof.
  intros Hg.
  unfold VerifyInclusion, SetSTH, call_GetSTH, self, bind, ret.
  simpl. rewrite Hg. reflexivity.
Qed.

Lemma VerifyInclusion_fetch_err ctx leaf timestamp s err w :
  GetSTH (Client (receiver s)) ctx (world s) = (inl err, w) ->
  VerifyInclusion ctx leaf timestamp s
  = (Returned (-1, Some (fetch_error (receiver s) err)),
     after_failed_fetch err w s).
Proof.
  intros Hg.
  unfold VerifyInclusion, SetSTH, call_GetSTH, self, bind, ret.
  simpl. rewrite Hg. reflexivity.
Qed.

Lemma fetches_after_fetch sth w s :
  fetches (trace (after_fetch sth w s)) = S (fetches (trace s)).
Proof.
  unfold after_fetch, emit. simpl. rewrite !fetches_app. simpl. lia.
Qed.

Lemma fetches_after_failed_fetch err w s :
  fetches (trace (after_failed_fetch err w s)) = S (fetches (trace s)).
Proof.
  unfold after_failed_fetch, emit. simpl. rewrite fetches_app. simpl. lia.
Qed.

Lemma fetches_VerifyInclusionAt ctx leaf timestamp treeSize rootHash s :
  fetches (trace (snd (VerifyInclusionAt ctx leaf timestamp treeSize rootHash s)))
  = fetches (trace s).
Proof.
  destruct (VerifyInclusionAt_frame ctx leaf timestamp treeSize rootHash s)
    as (_ & evs & Ht & Hz).
  rewrite Ht, fetches_app, Hz. lia.
Qed.

Lemma lastSTH_VerifyInclusionAt ctx leaf timestamp treeSize rootHash s :
  lastSTH (receiver (snd (VerifyInclusionAt ctx leaf timestamp treeSize rootHash s)))
  = lastSTH (receiver s).
Proof.
  destruct (VerifyInclusionAt_frame ctx leaf timestamp treeSize rootHash s)
    as (Hr & _).
  rewrite Hr. reflexivity.
Qed.

(** With a tree head cached, [VerifyInclusionLatest] fetches none and
    keeps the cache. *)
Lemma VerifyInclusionLatest_cached_frame ctx leaf timestamp s sth :
  lastSTH (receiver s) = Some sth ->
  fetches (trace (snd (VerifyInclusionLatest ctx leaf timestamp s)))
    = fetches (trace s) /\
  lastSTH (receiver (snd (VerifyInclusionLatest ctx leaf timestamp s)))
    = Some sth.
Proof.
  intros H. rewrite (VerifyInclusionLatest_cached _ _ _ _ _ H).
  rewrite fetches_VerifyInclusionAt, lastSTH_VerifyInclusionAt. auto.
Qed.

(** *** Error texts *)

Lemma append_nil_l (b : string) : "" +:+ b = b.
Proof. reflexivity. Qed.

Lemma append_cons (x : ascii) (a b : string) :
  String x a +:+ b = String x (a +:+ b).
Proof. reflexivity. Qed.

Lemma prefix_nil (s : string) : String.prefix "" s = true.
Proof. destruct s; reflexivity. Qed.

Lemma prefix_append (a b : string) : String.prefix a (a +:+ b) = true.
Proof.
  induction a as [|x a IH].
  - apply prefix_nil.
  - rewrite append_cons. simpl.
    destruct (ascii_dec x x); [exact IH|congruence].
Qed.

Lemma Contains_prefix (s sub : string) :
  String.prefix sub s = true -> Contains s sub = true.
Proof. intros H. destruct s; cbn [Contains]; rewrite H; reflexivity. Qed.

Lemma Contains_append (a b c : string) : Contains (a +:+ b +:+ c) b = true.
Proof.
  induction a as [|x a IH].
  - rewrite append_nil_l. apply Contains_prefix, prefix_append.
  - rewrite append_cons. cbn [Contains]. rewrite IH. apply orb_true_r.
Qed.

Lemma Contains_append_end (a b : string) : Contains (a +:+ b) b = true.
Proof.
  induction a as [|x a IH].
  - rewrite append_nil_l. apply Contains_prefix.
    induction b as [|y b IHb]; simpl; [reflexivity|].
    destruct (ascii_dec y y); [exact IHb|congruence].
  - rewrite append_cons. cbn [Contains]. rewrite IH. apply orb_true_r.
Qed.

Lemma fetch_error_names_log (li : LogInfo) (cause : error) :
  Contains (fetch_error li cause) (Quote (Description li)) = true.
Proof. unfold fetch_error. apply Contains_append. Qed.

Lemma VerifySCTSignature_error_names_log sct leaf s err s' :
  VerifySCTSignature sct leaf s = (Returned (Some err), s') ->
  Contains err (Quote (Description (receiver s))) = true.
Proof.
  run. destruct (TimestampedEntry_ptr leaf) as [p|]; simpl; [|discriminate].
  destruct (Verifier_VerifySCTSignature _ _ _ _) as [cause|]; simpl;
    [|discriminate].
  intros [= <- _]. apply Contains_append.
Qed.

Lemma VerifySCTSignature_error_cause sct leaf s err s' :
  VerifySCTSignature sct leaf s = (Returned (Some err), s') ->
  exists p cause,
    TimestampedEntry_ptr leaf = Some p /\
    Verifier_VerifySCTSignature (Verifier (receiver s)) sct leaf
      (set_Timestamp (SCT_Timestamp sct) (heap s p)) = Some cause /\
    err = "failed to verify SCT signature from log " +:+
          Quote (Description (receiver s)) +:+ ": " +:+ cause.
Proof.
  unfold VerifySCTSignature, store_Timestamp, call_VerifySCTSignature, load,
    self, bind, ret, panic.
  destruct (TimestampedEntry_ptr leaf) as [p|]; [|discriminate].
  cbn [heap store emit receiver]. rewrite Nat.eqb_refl.
  destruct (Verifier_VerifySCTSignature (Verifier (receiver s)) sct leaf
              (set_Timestamp (SCT_Timestamp sct) (heap s p))) as [cause|] eqn:Hv;
    [|discriminate].
  intros [= <- _]. exists p, cause. auto.
Qed.

Lemma VerifyInclusionAt_error_of ctx leaf timestamp treeSize rootHash s idx err s' :
  VerifyInclusionAt ctx leaf timestamp treeSize rootHash s
    = (Returned (idx, Some err), s') ->
  inclusion_at_error_of ctx leaf timestamp treeSize rootHash s err.
Proof.
  intros Hrun.
  destruct (TimestampedEntry_ptr leaf) as [p|] eqn:Hp.
  - destruct (VerifyInclusionAt_run ctx leaf timestamp treeSize rootHash p s Hp)
      as (r & s1 & Hrun1 & Hsteps).
    rewrite Hrun1 in Hrun. injection Hrun as -> ->.
    exists p. split; [exact Hp|].
    inversion Hsteps as [e cause s2 He Hh _
                        |e lh cause w s2 He Hh Hg _
                        |e lh rsp cause w s2 He Hh Hg Hv _
                        |e lh rsp w s2 He Hh Hg Hv _]; subst e.
    + left. exists cause. auto.
    + right. left. exists lh, cause, w. auto.
    + right. right. exists lh, rsp, w, cause. auto.
  - rewrite VerifyInclusionAt_nil in Hrun by assumption. discriminate.
Qed.

(** The description of the log plays no part in [VerifyInclusionAt]. *)
Lemma VerifyInclusionAt_any_description ctx leaf timestamp treeSize rootHash d s :
  fst (VerifyInclusionAt ctx leaf timestamp treeSize rootHash
         (with_receiver (with_Description d (receiver s)) s))
  = fst (VerifyInclusionAt ctx leaf timestamp treeSize rootHash s).
Proof.
  run. destruct (TimestampedEntry_ptr leaf) as [p|]; simpl; [|reflexivity].
  destruct (LeafHashForLeaf _ _) as [e|lh]; simpl; [reflexivity|].
  destruct (GetProofByHash _ _ _ _ _) as [[e|rsp] w]; simpl; [reflexivity|].
  destruct (VerifyInclusionProof _ _ _ _ _); reflexivity.
Qed.

Lemma InclusionAtSteps_order ctx leaf timestamp treeSize rootHash p s r s' :
  InclusionAtSteps ctx leaf timestamp treeSize rootHash p s r s' ->
  InclusionAtOrder ctx leaf timestamp treeSize rootHash p
    (set_Timestamp timestamp (heap s p)) (int64_of_uint64 treeSize) s r s'.
Proof.
  intros H.
  inversion H as [e cause s2 He Hh Hr
                 |e lh cause w s2 He Hh Hg Hr
                 |e lh rsp cause w s2 He Hh Hg Hv Hr
                 |e lh rsp w s2 He Hh Hg Hv Hr]; subst e.
  - eapply order_encoding_error; eassumption.
  - eapply order_transport_error; eassumption.
  - eapply order_proof_invalid; eassumption.
  - eapply order_included; eassumption.
Qed.

Lemma newLogInfo_error_names_log log lc err :
  newLogInfo log lc = inl err ->
  Contains err (Quote (Log_Description log)) = true.
Proof.
  unfold newLogInfo.
  destruct (ParsePKIXPublicKey (Key log)) as [e|k].
  - intros [= <-]. apply Contains_append.
  - destruct (NewSignatureVerifier k) as [e|v]; [|discriminate].
    intros [= <-]. apply Contains_append.
Qed.

Lemma NewLogInfo_error_names_log log hc err :
  NewLogInfo log hc = inl err ->
  Contains err (Quote (Log_Description log)) = true.
Proof.
  unfold NewLogInfo.
  destruct (client_New _ hc _) as [e|lc].
  - intros [= <-]. apply Contains_append.
  - apply newLogInfo_error_names_log.
Qed.

Lemma NewLogInfoOverDNS_error_names_log log err :
  NewLogInfoOverDNS log = inl err ->
  Contains err (Quote (Log_Description log)) = true.
Proof.
  unfold NewLogInfoOverDNS.
  destruct (String.eqb (DNSAPIEndpoint log) "").
  - intros [= <-]. apply Contains_append_end.
  - destruct (dnsclient_New _ _) as [e|dc].
    + intros [= <-]. apply Contains_append.
    + apply newLogInfo_error_names_log.
Qed.

(** *** What [last_with_hash] finds, what the factories build *)

Lemma last_with_hash_Some (h : bytes) (logs : list Log) (log : Log) :
  last_with_hash h logs = Some log ->
  In log logs /\ Sum256 (Key log) = h.
Proof.
  induction logs as [|l logs IH]; simpl; [discriminate|].
  destruct (last_with_hash h logs) as [l'|].
  - intros [= <-]. destruct (IH eq_refl) as [Hin Hh]. auto.
  - destruct (decide (Sum256 (Key l) = h)) as [Hh|]; [|discriminate].
    intros [= <-]. auto.
Qed.

Lemma last_with_hash_None (h : bytes) (logs : list Log) :
  last_with_hash h logs = None ->
  forall log, In log logs -> Sum256 (Key log) <> h.
Proof.
  induction logs as [|l logs IH]; simpl; [intros _ log []|].
  destruct (last_with_hash h logs) as [l'|]; [discriminate|].
  destruct (decide (Sum256 (Key l) = h)) as [|Hne]; [discriminate|].
  intros _ log [<-|Hin]; [exact Hne|apply IH; auto].
Qed.

Lemma newLogInfo_fields log lc li :
  newLogInfo log lc = inr li ->
  Description li = Log_Description log /\ Client li = lc /\
  PublicKey li = Key log /\ lastSTH li = None.
Proof.
  unfold newLogInfo.
  destruct (ParsePKIXPublicKey (Key log)) as [e|k]; [discriminate|].
  destruct (NewSignatureVerifier k) as [e|v]; [discriminate|].
  intros [= <-]. simpl. auto.
Qed.

(** *** The loop of [logInfoByKeyHash] *)

Section Registry.

Variable hc : HttpClient.
Variable infoFactory : Log -> HttpClient -> error + LogInfo.

Lemma range_stops_at_first_error (pre post : list Log) (log : Log)
    (err : error) (acc : gmap bytes LogInfo) :
  Forall (builds infoFactory hc) pre ->
  infoFactory log hc = inl err ->
  logInfoByKeyHash_range (pre ++ log :: post) hc infoFactory acc
    = (None, Some err).
Proof.
  intros Hpre Herr. revert acc.
  induction Hpre as [|l pre [li Hl] _ IH]; intros acc; simpl.
  - rewrite Herr. reflexivity.
  - rewrite Hl. apply IH.
Qed.

Lemma range_error_inv (logs : list Log) (acc : gmap bytes LogInfo) m err :
  logInfoByKeyHash_range logs hc infoFactory acc = (m, Some err) ->
  m = None /\
  exists pre log post,
    logs = pre ++ log :: post /\ Forall (builds infoFactory hc) pre /\
    infoFactory log hc = inl err.
Proof.
  revert acc. induction logs as [|l logs IH]; intros acc; simpl.
  - discriminate.
  - destruct (infoFactory l hc) as [e|li] eqn:Hl.
    + intros [= <- <-]. split; [reflexivity|].
      exists [], l, logs. split; [reflexivity|]. split; [constructor|exact Hl].
    + intros H. destruct (IH _ H) as (Hm & pre & log & post & -> & Hpre & Herr).
      split; [exact Hm|].
      exists (l :: pre), log, post. split; [reflexivity|].
      split; [|exact Herr]. constructor; [exists li; exact Hl|exact Hpre].
Qed.

Lemma range_all_built (logs : list Log) (acc : gmap bytes LogInfo) :
  Forall (builds infoFactory hc) logs ->
  exists m,
    logInfoByKeyHash_range logs hc infoFactory acc = (Some m, None) /\
    forall h,
      m !! h = match last_with_hash h logs with
               | Some log => built infoFactory hc log
               | None => acc !! h
               end.
Proof.
  intros Hall. revert acc.
  induction Hall as [|l logs [li Hl] _ IH]; intros acc; simpl.
  - exists acc. split; [reflexivity|]. intros h. reflexivity.
  - rewrite Hl. destruct (IH (<[Sum256 (Key l) := li]> acc)) as (m & Hm & Hlk).
    exists m. split; [exact Hm|]. intros h. rewrite Hlk.
    destruct (last_with_hash h logs); [reflexivity|].
    destruct (decide (Sum256 (Key l) = h)) as [->|Hne].
    + unfold built. rewrite Hl. apply lookup_insert_eq.
    + apply lookup_insert_ne. exact Hne.
Qed.

Lemma range_size (logs : list Log) (acc m : gmap bytes LogInfo) :
  NoDup (map (fun l => Sum256 (Key l)) logs) ->
  (forall l, In l logs -> acc !! Sum256 (Key l) = None) ->
  logInfoByKeyHash_range logs hc infoFactory acc = (Some m, None) ->
  size m = (size acc + length logs)%nat.
Proof.
  revert acc. induction logs as [|l logs IH]; intros acc Hnd Hfresh Hrun.
  - injection Hrun as <-. simpl. lia.
  - cbn [logInfoByKeyHash_range] in Hrun.
    destruct (infoFactory l hc) as [e|li]; [discriminate|].
    cbn [map] in Hnd. apply NoDup_cons in Hnd. destruct Hnd as [Hnotin Hnd].
    assert (Hfresh' : forall l', In l' logs ->
              (<[Sum256 (Key l) := li]> acc) !! Sum256 (Key l') = None).
    { intros l' Hin. rewrite lookup_insert_ne.
      - apply Hfresh. right. exact Hin.
      - intros Heq. apply Hnotin. rewrite Heq.
        apply list_elem_of_In, in_map_iff. exists l'. auto. }
    rewrite (IH _ Hnd Hfresh' Hrun).
    rewrite map_size_insert_None by (apply Hfresh; left; reflexivity).
    cbn [length]. lia.
Qed.

Lemma logInfoByKeyHash_all_or_nothing (ll : LogList) :
  (forall log err, infoFactory log hc = inl err ->
                   names_log (Log_Description log) err) ->
  all_or_nothing infoFactory ll hc (logInfoByKeyHash ll hc infoFactory).
Proof.
  intros Hnames. unfold all_or_nothing, logInfoByKeyHash. split.
  - intros pre log post err Heq Hpre Herr. rewrite Heq. split.
    + apply range_stops_at_first_error; assumption.
    + apply (Hnames _ _ Herr).
  - intros Hall.
    destruct (range_all_built (Logs ll) ∅ Hall) as (m & Hm & Hlk).
    exists m. split; [exact Hm|]. split.
    + intros h. rewrite Hlk.
      destruct (last_with_hash h (Logs ll)); [reflexivity|].
      apply lookup_empty.
    + intros Hnd. rewrite (range_size (Logs ll) ∅ m Hnd); [| |exact Hm].
      * rewrite map_size_empty. reflexivity.
      * intros l _. apply lookup_empty.
Qed.

Lemma logInfoByKeyHash_error_names_log (ll : LogList) m err :
  (forall log e, infoFactory log hc = inl e ->
                 names_log (Log_Description log) e) ->
  logInfoByKeyHash ll hc infoFactory = (m, Some err) ->
  m = None /\
  exists log, In log (Logs ll) /\ names_log (Log_Description log) err.
Proof.
  intros Hnames Hrun. unfold logInfoByKeyHash in Hrun.
  destruct (range_error_inv _ _ _ _ Hrun) as (Hm & pre & log & post & Heq & _ & Herr).
  split; [exact Hm|]. exists log. split.
  - rewrite Heq. apply in_or_app. right. left. reflexivity.
  - apply (Hnames _ _ Herr).
Qed.

End Registry.

(** C1 (amended). A call of [VerifyInclusionAt] on a leaf without
    timestamped entry panics at the first step and makes no other.  On a
    leaf with a timestamped entry it returns, and goes through the steps
    in order: the timestamp of the entry is set to the supplied one, its
    other fields kept; the leaf hash of the leaf with that entry is
    derived; the inclusion proof is requested for (leafHash, treeSize);
    the Merkle verifier is called on (leafIndex, size, auditPath, rootHash,
    leafHash), where size is treeSize below 2^63 and treeSize - 2^64 from
    there on; the reported index is returned.  The first failing step
    ends the call with an error and no later step is made. *)
Theorem VerifyInclusionAt_steps_in_order
    (ctx : Ctx) (leaf : MerkleTreeLeaf) (timestamp treeSize : Z)
    (rootHash : bytes) (s : State) :
  0 <= treeSize < 2 ^ 64 ->
  (TimestampedEntry_ptr leaf = None ->
   VerifyInclusionAt ctx leaf timestamp treeSize rootHash s = (Panicked, s)) /\
  (forall p,
     TimestampedEntry_ptr leaf = Some p ->
     exists e size64 r s',
       Timestamp e = timestamp /\
       EntryType e = EntryType (heap s p) /\
       EntryData e = EntryData (heap s p) /\
       (treeSize < 2 ^ 63 -> size64 = treeSize) /\
       (2 ^ 63 <= treeSize -> size64 = treeSize - 2 ^ 64) /\
       VerifyInclusionAt ctx leaf timestamp treeSize rootHash s
         = (Returned r, s') /\
       InclusionAtOrder ctx leaf timestamp treeSize rootHash p e size64 s r s').
Proof.
  intros Hsize. split.
  - apply VerifyInclusionAt_nil.
  - intros p Hp.
    destruct (VerifyInclusionAt_run ctx leaf timestamp treeSize rootHash p s Hp)
      as (r & s' & Hrun & Hsteps).
    exists (set_Timestamp timestamp (heap s p)), (int64_of_uint64 treeSize), r, s'.
    split; [reflexivity|]. split; [reflexivity|]. split; [reflexivity|].
    split; [|split; [|split]].
    + intros Hlt. apply int64_of_uint64_small. lia.
    + intros Hge. unfold int64_of_uint64, wrap_int64.
      replace (treeSize + 2 ^ 63) with (treeSize - 2 ^ 63 + 1 * 2 ^ 64) by ring.
      rewrite Z_mod_plus_full, Z.mod_small; lia.
    + exact Hrun.
    + apply InclusionAtSteps_order, Hsteps.
Qed.


(** C3. Whatever the cache holds, [VerifyInclusion] makes exactly one
    tree-head fetch; when the fetch succeeds the cache is replaced by the
    fetched tree head, whatever its size, before the call delegates to
    [VerifyInclusionAt] with the fetched size and root, and the cache holds
    the fetched tree head at the end of the call. *)
Theorem VerifyInclusion_fetches_and_replaces
    (ctx : Ctx) (leaf : MerkleTreeLeaf) (timestamp : Z) (s : State) :
  fetches (trace (snd (VerifyInclusion ctx leaf timestamp s)))
    = S (fetches (trace s)) /\
  forall sth w,
    GetSTH (Client (receiver s)) ctx (world s) = (inr sth, w) ->
    lastSTH (receiver (after_fetch sth w s)) = Some sth /\
    VerifyInclusion ctx leaf timestamp s
      = VerifyInclusionAt ctx leaf timestamp (TreeSize sth) (SHA256RootHash sth)
          (after_fetch sth w s) /\
    lastSTH (receiver (snd (VerifyInclusion ctx leaf timestamp s))) = Some sth.
Proof.
  split.
  - destruct (GetSTH (Client (receiver s)) ctx (world s)) as [[err|sth] w] eqn:Hg.
    + rewrite (VerifyInclusion_fetch_err _ _ _ _ _ _ Hg). cbn [snd].
      apply fetches_after_failed_fetch.
    + rewrite (VerifyInclusion_fetch_ok _ _ _ _ _ _ Hg).
      rewrite fetches_VerifyInclusionAt. apply fetches_after_fetch.
  - intros sth w Hg. split; [reflexivity|]. split.
    + apply (VerifyInclusion_fetch_ok _ _ _ _ _ _ Hg).
    + rewrite (VerifyInclusion_fetch_ok _ _ _ _ _ _ Hg).
      rewrite lastSTH_VerifyInclusionAt. reflexivity.
Qed.

(** C6. A call of [VerifyInclusionLatest] that starts with a tree head in
    the cache ends with the same tree head in the cache. *)
Theorem VerifyInclusionLatest_keeps_cached_STH
    (ctx : Ctx) (leaf : MerkleTreeLeaf) (timestamp : Z) (s : State)
    (sth : SignedTreeHead) :
  lastSTH (receiver s) = Some sth ->
  lastSTH (receiver (snd (VerifyInclusionLatest ctx leaf timestamp s)))
    = Some sth.
Proof.
  intros H. apply (VerifyInclusionLatest_cached_frame _ _ _ _ _ H).
Qed.

(** C7. When the tree-head fetch fails, [VerifyInclusion] returns an error
    and so does [VerifyInclusionLatest] when it fetches (nothing cached);
    in both the cache is as it was before the call. *)
Theorem failed_fetch_keeps_cache
    (ctx : Ctx) (leaf : MerkleTreeLeaf) (timestamp : Z) (s : State)
    (err : error) (w : World) :
  GetSTH (Client (receiver s)) ctx (world s) = (inl err, w) ->
  (exists e s',
     VerifyInclusion ctx leaf timestamp s = (Returned (-1, Some e), s') /\
     lastSTH (receiver s') = lastSTH (receiver s)) /\
  (lastSTH (receiver s) = None ->
   exists e s',
     VerifyInclusionLatest ctx leaf timestamp s = (Returned (-1, Some e), s') /\
     lastSTH (receiver s') = lastSTH (receiver s)).
Proof.
  intros Hg. split.
  - rewrite (VerifyInclusion_fetch_err _ _ _ _ _ _ Hg).
    eexists _, _. split; reflexivity.
  - intros Hn. rewrite (VerifyInclusionLatest_fetch_err _ _ _ _ _ _ Hn Hg).
    eexists _, _. split; reflexivity.
Qed.

Lemma VerifyInclusionAt_index ctx leaf timestamp treeSize rootHash s idx err s' :
  VerifyInclusionAt ctx leaf timestamp treeSize rootHash s
    = (Returned (idx, err), s') ->
  index_agrees ctx s idx err s'.
Proof.
  intros Hrun.
  destruct (TimestampedEntry_ptr leaf) as [p|] eqn:Hp.
  - destruct (VerifyInclusionAt_run ctx leaf timestamp treeSize rootHash p s Hp)
      as (r & s1 & Hrun1 & Hsteps).
    rewrite Hrun1 in Hrun. injection Hrun as -> ->.
    destruct (InclusionAtSteps_index _ _ _ _ _ _ _ _ _ _ Hsteps) as (He & Hok).
    split; [exact He|]. intros Hn.
    destruct (Hok Hn) as (lh & rsp & evs & Hg & Ht & Hin & Hi).
    exists lh, treeSize, rsp, (world s), evs. auto.
  - rewrite VerifyInclusionAt_nil in Hrun by assumption. discriminate.
Qed.

(** The same after a tree head was fetched and stored. *)
Lemma index_agrees_after_fetch ctx s sth w idx err s' :
  index_agrees ctx (after_fetch sth w s) idx err s' ->
  index_agrees ctx s idx err s'.
Proof.
  intros (He & Hok). split; [exact He|]. intros Hn.
  destruct (Hok Hn) as (lh & size & rsp & w0 & evs & Hg & Ht & Hin & Hi).
  exists lh, size, rsp, w0, ([EvGetSTH (inr sth); EvSetSTH (Some sth)] ++ evs).
  split; [exact Hg|]. split.
  - rewrite Ht. unfold after_fetch, emit. simpl.
    rewrite <- !app_assoc. reflexivity.
  - split; [|exact Hi]. apply in_or_app. right. exact Hin.
Qed.

Lemma index_agrees_error ctx s e s' : index_agrees ctx s (-1) (Some e) s'.
Proof. split; [reflexivity|discriminate]. Qed.

(** C10. Whenever [VerifyInclusionLatest], [VerifyInclusion] or
    [VerifyInclusionAt] returns an error the index returned with it is
    [-1]; whenever it returns no error the index is the leaf index of the
    inclusion-proof response the transport gave. *)
Theorem inclusion_index_or_minus_one
    (ctx : Ctx) (leaf : MerkleTreeLeaf) (timestamp treeSize : Z)
    (rootHash : bytes) (s : State) (idx : Z) (err : option error) (s' : State) :
  (VerifyInclusionLatest ctx leaf timestamp s = (Returned (idx, err), s') ->
   index_agrees ctx s idx err s') /\
  (VerifyInclusion ctx leaf timestamp s = (Returned (idx, err), s') ->
   index_agrees ctx s idx err s') /\
  (VerifyInclusionAt ctx leaf timestamp treeSize rootHash s
     = (Returned (idx, err), s') ->
   index_agrees ctx s idx err s').
Proof.
  split; [|split].
  - destruct (lastSTH (receiver s)) as [sth|] eqn:Hc.
    + rewrite (VerifyInclusionLatest_cached _ _ _ _ _ Hc).
      apply VerifyInclusionAt_index.
    + destruct (GetSTH (Client (receiver s)) ctx (world s)) as [[e|sth] w] eqn:Hg.
      * rewrite (VerifyInclusionLatest_fetch_err _ _ _ _ _ _ Hc Hg).
        intros [= <- <- <-]. apply index_agrees_error.
      * rewrite (VerifyInclusionLatest_fetch_ok _ _ _ _ _ _ Hc Hg).
        intros Hrun. apply (index_agrees_after_fetch _ _ sth w).
        apply VerifyInclusionAt_index in Hrun. exact Hrun.
  - destruct (GetSTH (Client (receiver s)) ctx (world s)) as [[e|sth] w] eqn:Hg.
    + rewrite (VerifyInclusion_fetch_err _ _ _ _ _ _ Hg).
      intros [= <- <- <-]. apply index_agrees_error.
    + rewrite (VerifyInclusion_fetch_ok _ _ _ _ _ _ Hg).
      intros Hrun. apply (index_agrees_after_fetch _ _ sth w).
      apply VerifyInclusionAt_index in Hrun. exact Hrun.
  - apply VerifyInclusionAt_index.
Qed.

(** C4 (amended). The errors of [VerifySCTSignature], of a failed
    tree-head fetch in [VerifyInclusionLatest] and [VerifyInclusion], and
    of registry construction carry the description of the log: the log of
    the [LogInfo], or the first log of the list that cannot be built.  The
    errors [VerifyInclusionAt] makes, also when reached through the other
    two, are the text of the failed step, the tree size checked against
    and the error the step got; the description of the log plays no part
    in them. *)
Theorem errors_carry_description_or_tree_size
    (sct : SignedCertificateTimestamp) (ctx : Ctx) (leaf : MerkleTreeLeaf)
    (timestamp treeSize : Z) (rootHash : bytes) (s : State)
    (ll : LogList) (hc : HttpClient) :
  (forall err s',
     VerifySCTSignature sct leaf s = (Returned (Some err), s') ->
     names_log (Description (receiver s)) err /\
     exists p cause,
       TimestampedEntry_ptr leaf = Some p /\
       Verifier_VerifySCTSignature (Verifier (receiver s)) sct leaf
         (set_Timestamp (SCT_Timestamp sct) (heap s p)) = Some cause /\
       err = "failed to verify SCT signature from log " +:+
             Quote (Description (receiver s)) +:+ ": " +:+ cause) /\
  (forall idx err s',
     VerifyInclusionLatest ctx leaf timestamp s = (Returned (idx, Some err), s') ->
     (lastSTH (receiver s) = None /\
      exists cause w,
        GetSTH (Client (receiver s)) ctx (world s) = (inl cause, w) /\
        err = "failed to get current STH for " +:+
              Quote (Description (receiver s)) +:+ " log: " +:+ cause /\
        names_log (Description (receiver s)) err) \/
     (exists sth,
        lastSTH (receiver s) = Some sth /\
        inclusion_at_error_of ctx leaf timestamp (TreeSize sth)
          (SHA256RootHash sth) s err) \/
     (lastSTH (receiver s) = None /\
      exists sth w,
        GetSTH (Client (receiver s)) ctx (world s) = (inr sth, w) /\
        inclusion_at_error_of ctx leaf timestamp (TreeSize sth)
          (SHA256RootHash sth) (after_fetch sth w s) err)) /\
  (forall idx err s',
     VerifyInclusion ctx leaf timestamp s = (Returned (idx, Some err), s') ->
     (exists cause w,
        GetSTH (Client (receiver s)) ctx (world s) = (inl cause, w) /\
        err = "failed to get current STH for " +:+
              Quote (Description (receiver s)) +:+ " log: " +:+ cause /\
        names_log (Description (receiver s)) err) \/
     (exists sth w,
        GetSTH (Client (receiver s)) ctx (world s) = (inr sth, w) /\
        inclusion_at_error_of ctx leaf timestamp (TreeSize sth)
          (SHA256RootHash sth) (after_fetch sth w s) err)) /\
  (forall idx err s',
     VerifyInclusionAt ctx leaf timestamp treeSize rootHash s
       = (Returned (idx, Some err), s') ->
     inclusion_at_error_of ctx leaf timestamp treeSize rootHash s err) /\
  (forall d,
     fst (VerifyInclusionAt ctx leaf timestamp treeSize rootHash
            (with_receiver (with_Description d (receiver s)) s))
     = fst (VerifyInclusionAt ctx leaf timestamp treeSize rootHash s)) /\
  (forall m err,
     LogInfoByKeyHash ll hc = (m, Some err) ->
     exists pre log post,
       Logs ll = pre ++ log :: post /\
       Forall (builds NewLogInfo hc) pre /\
       NewLogInfo log hc = inl err /\
       names_log (Log_Description log) err) /\
  (forall m err,
     LogInfoByKeyHashOverDNS ll hc = (m, Some err) ->
     exists pre log post,
       Logs ll = pre ++ log :: post /\
       Forall (builds NewLogInfoOverDNSWrapper hc) pre /\
       NewLogInfoOverDNS log = inl err /\
       names_log (Log_Description log) err).
Proof.
  split; [|split; [|split; [|split; [|split; [|split]]]]].
  - intros err s' Hrun. split.
    + apply (VerifySCTSignature_error_names_log _ _ _ _ _ Hrun).
    + apply (VerifySCTSignature_error_cause _ _ _ _ _ Hrun).
  - intros idx err s'.
    destruct (lastSTH (receiver s)) as [sth|] eqn:Hc.
    + rewrite (VerifyInclusionLatest_cached _ _ _ _ _ Hc). intros Hrun.
      right. left. exists sth. split; [reflexivity|].
      apply (VerifyInclusionAt_error_of _ _ _ _ _ _ _ _ _ Hrun).
    + destruct (GetSTH (Client (receiver s)) ctx (world s)) as [[e|sth] w] eqn:Hg.
      * rewrite (VerifyInclusionLatest_fetch_err _ _ _ _ _ _ Hc Hg).
        intros [= _ <- _]. left. split; [reflexivity|].
        exists e, w. split; [reflexivity|]. split; [reflexivity|].
        apply fetch_error_names_log.
      * rewrite (VerifyInclusionLatest_fetch_ok _ _ _ _ _ _ Hc Hg). intros Hrun.
        right. right. split; [reflexivity|]. exists sth, w.
        split; [reflexivity|].
        apply (VerifyInclusionAt_error_of _ _ _ _ _ _ _ _ _ Hrun).
  - intros idx err s'.
    destruct (GetSTH (Client (receiver s)) ctx (world s)) as [[e|sth] w] eqn:Hg.
    + rewrite (VerifyInclusion_fetch_err _ _ _ _ _ _ Hg).
      intros [= _ <- _]. left.
      exists e, w. split; [reflexivity|]. split; [reflexivity|].
      apply fetch_error_names_log.
    + rewrite (VerifyInclusion_fetch_ok _ _ _ _ _ _ Hg). intros Hrun.
      right. exists sth, w. split; [reflexivity|].
      apply (VerifyInclusionAt_error_of _ _ _ _ _ _ _ _ _ Hrun).
  - intros idx err s'. apply VerifyInclusionAt_error_of.
  - intros d. apply VerifyInclusionAt_any_description.
  - intros m err Hrun.
    destruct (range_error_inv _ _ _ _ _ _ Hrun)
      as (_ & pre & log & post & Heq & Hpre & Herr).
    exists pre, log, post. repeat split; try assumption.
    apply (NewLogInfo_error_names_log _ _ _ Herr).
  - intros m err Hrun.
    destruct (range_error_inv _ _ _ _ _ _ Hrun)
      as (_ & pre & log & post & Heq & Hpre & Herr).
    exists pre, log, post. repeat split; try assumption.
    apply (NewLogInfoOverDNS_error_names_log _ _ Herr).
Qed.


(** C8 (amended). [LogInfoByKeyHash] and [LogInfoByKeyHashOverDNS] are all
    or nothing: an error naming the first log that cannot be built and no
    map, or a map holding at the SHA-256 hash of each key the [LogInfo]
    built from the last log of the list with that hash (one per log when
    the hashes differ). *)
Theorem registry_construction_all_or_nothing (ll : LogList) (hc : HttpClient) :
  all_or_nothing NewLogInfo ll hc (LogInfoByKeyHash ll hc) /\
  all_or_nothing NewLogInfoOverDNSWrapper ll hc (LogInfoByKeyHashOverDNS ll hc).
Proof.
  split.
  - apply logInfoByKeyHash_all_or_nothing.
    intros log err. apply NewLogInfo_error_names_log.
  - apply logInfoByKeyHash_all_or_nothing.
    intros log err. apply NewLogInfoOverDNS_error_names_log.
Qed.

End Properties.

(** * Further properties of the verification entry points *)

Section Verification.

Context {C : Collaborators}.

Ltac exec :=
  unfold VerifyInclusion, VerifyInclusionLatest, VerifyInclusionAt,
    VerifySCTSignature, LastSTH, SetSTH, store_Timestamp,
    call_LeafHashForLeaf, call_VerifySCTSignature, call_GetSTH,
    call_GetProofByHash, call_VerifyInclusionProof, load, self, bind, ret,
    panic, with_old_timestamp, with_cache in *;
  simpl in *.

Lemma transport_calls_app (t u : list Event) :
  transport_calls (t ++ u) = (transport_calls t + transport_calls u)%nat.
Proof.
  induction t as [|ev t IH]; simpl; [reflexivity|].
  destruct ev; simpl; rewrite IH; reflexivity.
Qed.

(** X1. What [SetSTH] stores [LastSTH] returns, and the last [SetSTH]
    wins; [SetSTH] changes nothing else of the [LogInfo], and [LastSTH]
    changes nothing at all. *)
Theorem SetSTH_LastSTH_round_trip (sth sth' : option SignedTreeHead) (s : State) :
  fst (LastSTH (snd (SetSTH sth s))) = Returned sth /\
  fst (LastSTH (snd (SetSTH sth' (snd (SetSTH sth s))))) = Returned sth' /\
  snd (LastSTH s) = s /\
  Description (receiver (snd (SetSTH sth s))) = Description (receiver s) /\
  Client (receiver (snd (SetSTH sth s))) = Client (receiver s) /\
  MMD (receiver (snd (SetSTH sth s))) = MMD (receiver s) /\
  Verifier (receiver (snd (SetSTH sth s))) = Verifier (receiver s) /\
  PublicKey (receiver (snd (SetSTH sth s))) = PublicKey (receiver s) /\
  world (snd (SetSTH sth s)) = world s /\
  transport_calls (trace (snd (SetSTH sth s))) = transport_calls (trace s).
Proof.
  repeat (split; [reflexivity|]).
  unfold SetSTH, emit. simpl. rewrite transport_calls_app. simpl. lia.
Qed.

(** X2. After [SetSTH] of a tree head, [VerifyInclusionLatest] checks
    against that tree head without a fetch; after [SetSTH] of nil it
    fetches one. *)
Theorem SetSTH_decides_whether_Latest_fetches
    (ctx : Ctx) (leaf : MerkleTreeLeaf) (timestamp : Z)
    (sth : SignedTreeHead) (s : State) :
  VerifyInclusionLatest ctx leaf timestamp (snd (SetSTH (Some sth) s))
    = VerifyInclusionAt ctx leaf timestamp (TreeSize sth) (SHA256RootHash sth)
        (snd (SetSTH (Some sth) s)) /\
  fetches (trace (snd (VerifyInclusionLatest ctx leaf timestamp
                         (snd (SetSTH (Some sth) s)))))
    = fetches (trace s) /\
  fetches (trace (snd (VerifyInclusionLatest ctx leaf timestamp
                         (snd (SetSTH None s)))))
    = S (fetches (trace s)).
Proof.
  assert (Hset : forall c, fetches (trace (snd (SetSTH c s))) = fetches (trace s)).
  { intros c. unfold SetSTH, emit. simpl. rewrite fetches_app. simpl. lia. }
  split; [|split].
  - apply VerifyInclusionLatest_cached. reflexivity.
  - rewrite (VerifyInclusionLatest_cached ctx leaf timestamp
               (snd (SetSTH (Some sth) s)) sth eq_refl).
    rewrite fetches_VerifyInclusionAt. apply Hset.
  - set (s0 := snd (SetSTH None s)).
    assert (Hn : lastSTH (receiver s0) = None) by reflexivity.
    destruct (GetSTH (Client (receiver s0)) ctx (world s0)) as [[e|sth0] w] eqn:Hg.
    + rewrite (VerifyInclusionLatest_fetch_err _ _ _ _ _ _ Hn Hg). cbn [snd].
      rewrite fetches_after_failed_fetch. f_equal. apply Hset.
    + rewrite (VerifyInclusionLatest_fetch_ok _ _ _ _ _ _ Hn Hg).
      rewrite fetches_VerifyInclusionAt, fetches_after_fetch. f_equal. apply Hset.
Qed.

(** X3. On a leaf with an entry, [VerifySCTSignature] of a [LogInfo] with
    a verifier returns; it returns nil exactly when the verifier accepts
    the SCT over the leaf with its entry as stored: the timestamp of the
    SCT, the entry type and data as they were.  It makes that store and
    the verifier call and nothing else: no other entry written, no
    transport call, the [LogInfo] and its cache as before. *)
Theorem VerifySCTSignature_checks_adjusted_leaf
    (sct : SignedCertificateTimestamp) (leaf : MerkleTreeLeaf) (p : loc)
    (s : State) :
  TimestampedEntry_ptr leaf = Some p ->
  exists e r s',
    Timestamp e = SCT_Timestamp sct /\
    EntryType e = EntryType (heap s p) /\
    EntryData e = EntryData (heap s p) /\
    VerifySCTSignature sct leaf s = (Returned r, s') /\
    (r = None <->
     Verifier_VerifySCTSignature (Verifier (receiver s)) sct leaf e = None) /\
    heap s' p = e /\
    (forall q, q <> p -> heap s' q = heap s q) /\
    receiver s' = receiver s /\
    world s' = world s /\
    trace s' = trace s ++
      [EvStoreTimestamp p (SCT_Timestamp sct); EvVerifySCTSignature sct leaf e].
Proof.
  intros Hp.
  exists (set_Timestamp (SCT_Timestamp sct) (heap s p)).
  unfold VerifySCTSignature, store_Timestamp, call_VerifySCTSignature, load,
    self, bind, ret.
  rewrite Hp. cbn [heap store emit]. rewrite Nat.eqb_refl.
  destruct (Verifier_VerifySCTSignature (Verifier (receiver s)) sct leaf
              (set_Timestamp (SCT_Timestamp sct) (heap s p))) as [e|] eqn:Hv;
    eexists _, _; (do 3 (split; [reflexivity|])); (split; [reflexivity|]);
    (split; [split; intros H; (discriminate H || reflexivity)|]);
    cbn [heap receiver world trace emit store];
    (split; [rewrite Nat.eqb_refl; reflexivity|]);
    (split; [intros q Hq; apply Nat.eqb_neq in Hq; rewrite Hq; reflexivity|]);
    (split; [reflexivity|]); (split; [reflexivity|]);
    rewrite <- app_assoc; reflexivity.
Qed.

(** X4. The timestamp the entry had before the call does not matter:
    [VerifySCTSignature] and [VerifyInclusionAt] return the same, and
    [VerifyInclusionAt] leaves the same entries, whatever it was. *)
Theorem old_timestamp_is_irrelevant
    (sct : SignedCertificateTimestamp) (ctx : Ctx) (leaf : MerkleTreeLeaf)
    (timestamp treeSize : Z) (rootHash : bytes) (p : loc) (t0 : Z) (s : State) :
  TimestampedEntry_ptr leaf = Some p ->
  fst (VerifySCTSignature sct leaf (with_old_timestamp p t0 s))
    = fst (VerifySCTSignature sct leaf s) /\
  fst (VerifyInclusionAt ctx leaf timestamp treeSize rootHash
         (with_old_timestamp p t0 s))
    = fst (VerifyInclusionAt ctx leaf timestamp treeSize rootHash s) /\
  forall q,
    heap (snd (VerifyInclusionAt ctx leaf timestamp treeSize rootHash
                 (with_old_timestamp p t0 s))) q
    = heap (snd (VerifyInclusionAt ctx leaf timestamp treeSize rootHash s)) q.
Proof.
  intros Hp. split; [|split].
  - exec. rewrite Hp. simpl. rewrite !Nat.eqb_refl. simpl.
    destruct (Verifier_VerifySCTSignature _ _ _ _); reflexivity.
  - exec. rewrite Hp. simpl. rewrite !Nat.eqb_refl. simpl.
    destruct (LeafHashForLeaf _ _) as [e|lh]; simpl; [reflexivity|].
    destruct (GetProofByHash _ _ _ _ _) as [[e|rsp] w]; simpl; [reflexivity|].
    destruct (VerifyInclusionProof _ _ _ _ _); reflexivity.
  - intros q. exec. rewrite Hp. simpl. rewrite !Nat.eqb_refl. simpl.
    destruct (LeafHashForLeaf _ _) as [e|lh]; simpl.
    { destruct (Nat.eqb q p); reflexivity. }
    destruct (GetProofByHash _ _ _ _ _) as [[e|rsp] w]; simpl.
    { destruct (Nat.eqb q p); reflexivity. }
    destruct (VerifyInclusionProof _ _ _ _ _); simpl;
      destruct (Nat.eqb q p); reflexivity.
Qed.

(** X5. [VerifyInclusionAt] neither reads nor writes the cached tree head:
    it returns the same and makes the same calls whatever is cached, and
    what is cached stays. *)
Theorem VerifyInclusionAt_ignores_cache
    (ctx : Ctx) (leaf : MerkleTreeLeaf) (timestamp treeSize : Z)
    (rootHash : bytes) (c : option SignedTreeHead) (s : State) :
  fst (VerifyInclusionAt ctx leaf timestamp treeSize rootHash (with_cache c s))
    = fst (VerifyInclusionAt ctx leaf timestamp treeSize rootHash s) /\
  trace (snd (VerifyInclusionAt ctx leaf timestamp treeSize rootHash
                (with_cache c s)))
    = trace (snd (VerifyInclusionAt ctx leaf timestamp treeSize rootHash s)) /\
  lastSTH (receiver (snd (VerifyInclusionAt ctx leaf timestamp treeSize rootHash
                            (with_cache c s)))) = c.
Proof.
  split; [|split]; [| |apply lastSTH_VerifyInclusionAt];
    exec; (destruct (TimestampedEntry_ptr leaf) as [p|]; simpl; [|reflexivity]);
    (destruct (LeafHashForLeaf _ _) as [e|lh]; simpl; [reflexivity|]);
    (destruct (GetProofByHash _ _ _ _ _) as [[e|rsp] w]; simpl; [reflexivity|]);
    destruct (VerifyInclusionProof _ _ _ _ _); reflexivity.
Qed.

Lemma InclusionAtSteps_calls ctx leaf timestamp treeSize rootHash p s idx err s' :
  InclusionAtSteps ctx leaf timestamp treeSize rootHash p s (idx, err) s' ->
  (transport_calls (trace s') <= S (transport_calls (trace s)))%nat /\
  (err = None -> transport_calls (trace s') = S (transport_calls (trace s))).
Proof.
  intros H.
  inversion H as [e err' s1 He Hh [Hr [Hhp [Hw Ht]]]
                 |e lh err' w s1 He Hh Hg [Hr [Hhp [Hw Ht]]]
                 |e lh rsp err' w s1 He Hh Hg Hv [Hr [Hhp [Hw Ht]]]
                 |e lh rsp w s1 He Hh Hg Hv [Hr [Hhp [Hw Ht]]]]; subst;
    rewrite Ht, transport_calls_app; simpl; (split; [lia|]);
    intros Hn; (discriminate Hn || lia).
Qed.

Lemma transport_calls_VerifyInclusionAt ctx leaf timestamp treeSize rootHash s :
  (transport_calls (trace (snd (VerifyInclusionAt ctx leaf timestamp treeSize
                                  rootHash s)))
   <= S (transport_calls (trace s)))%nat /\
  (forall idx s',
     VerifyInclusionAt ctx leaf timestamp treeSize rootHash s
       = (Returned (idx, None), s') ->
     transport_calls (trace s') = S (transport_calls (trace s))).
Proof.
  destruct (TimestampedEntry_ptr leaf) as [p|] eqn:Hp.
  - destruct (VerifyInclusionAt_run ctx leaf timestamp treeSize rootHash p s Hp)
      as ([idx err] & s1 & Hrun & Hsteps).
    rewrite Hrun. cbn [snd].
    destruct (InclusionAtSteps_calls _ _ _ _ _ _ _ _ _ _ Hsteps) as (Hle & Heq).
    split; [exact Hle|]. intros idx' s' [= -> -> ->]. apply Heq. reflexivity.
  - rewrite VerifyInclusionAt_nil by assumption. cbn [snd].
    split; [lia|discriminate].
Qed.

Lemma transport_calls_after_fetch sth w s :
  transport_calls (trace (after_fetch sth w s)) = S (transport_calls (trace s)).
Proof.
  unfold after_fetch, emit. simpl. rewrite !transport_calls_app. simpl. lia.
Qed.

Lemma transport_calls_after_failed_fetch err w s :
  transport_calls (trace (after_failed_fetch err w s))
  = S (transport_calls (trace s)).
Proof.
  unfold after_failed_fetch, emit. simpl. rewrite transport_calls_app. simpl. lia.
Qed.

(** X6. A successful [VerifyInclusionAt] costs one call to the transport,
    a successful [VerifyInclusion] two, a successful
    [VerifyInclusionLatest] one when a tree head is cached and two when
    none is; no call of them costs more than that. *)
Theorem transport_calls_per_verification
    (ctx : Ctx) (leaf : MerkleTreeLeaf) (timestamp treeSize : Z)
    (rootHash : bytes) (s : State) :
  (forall idx s',
     VerifyInclusionAt ctx leaf timestamp treeSize rootHash s
       = (Returned (idx, None), s') ->
     transport_calls (trace s') = S (transport_calls (trace s))) /\
  (forall idx s',
     VerifyInclusion ctx leaf timestamp s = (Returned (idx, None), s') ->
     transport_calls (trace s') = S (S (transport_calls (trace s)))) /\
  (forall idx s',
     VerifyInclusionLatest ctx leaf timestamp s = (Returned (idx, None), s') ->
     transport_calls (trace s')
     = match lastSTH (receiver s) with
       | Some _ => S (transport_calls (trace s))
       | None => S (S (transport_calls (trace s)))
       end) /\
  (transport_calls (trace (snd (VerifyInclusionAt ctx leaf timestamp treeSize
                                  rootHash s)))
   <= S (transport_calls (trace s)))%nat /\
  (transport_calls (trace (snd (VerifyInclusion ctx leaf timestamp s)))
   <= S (S (transport_calls (trace s))))%nat /\
  (transport_calls (trace (snd (VerifyInclusionLatest ctx leaf timestamp s)))
   <= match lastSTH (receiver s) with
      | Some _ => S (transport_calls (trace s))
      | None => S (S (transport_calls (trace s)))
      end)%nat.
Proof.
  split; [|split; [|split; [|split; [|split]]]].
  - apply transport_calls_VerifyInclusionAt.
  - intros idx s'.
    destruct (GetSTH (Client (receiver s)) ctx (world s)) as [[e|sth] w] eqn:Hg.
    + rewrite (VerifyInclusion_fetch_err _ _ _ _ _ _ Hg). discriminate.
    + rewrite (VerifyInclusion_fetch_ok _ _ _ _ _ _ Hg). intros Hrun.
      apply transport_calls_VerifyInclusionAt in Hrun.
      rewrite Hrun, transport_calls_after_fetch. reflexivity.
  - intros idx s'. destruct (lastSTH (receiver s)) as [sth|] eqn:Hc.
    + rewrite (VerifyInclusionLatest_cached _ _ _ _ _ Hc).
      apply transport_calls_VerifyInclusionAt.
    + destruct (GetSTH (Client (receiver s)) ctx (world s)) as [[e|sth] w] eqn:Hg.
      * rewrite (VerifyInclusionLatest_fetch_err _ _ _ _ _ _ Hc Hg). discriminate.
      * rewrite (VerifyInclusionLatest_fetch_ok _ _ _ _ _ _ Hc Hg). intros Hrun.
        apply transport_calls_VerifyInclusionAt in Hrun.
        rewrite Hrun, transport_calls_after_fetch. reflexivity.
  - apply transport_calls_VerifyInclusionAt.
  - destruct (GetSTH (Client (receiver s)) ctx (world s)) as [[e|sth] w] eqn:Hg.
    + rewrite (VerifyInclusion_fetch_err _ _ _ _ _ _ Hg). cbn [snd].
      rewrite transport_calls_after_failed_fetch. lia.
    + rewrite (VerifyInclusion_fetch_ok _ _ _ _ _ _ Hg).
      etransitivity; [apply transport_calls_VerifyInclusionAt|].
      rewrite transport_calls_after_fetch. lia.
  - destruct (lastSTH (receiver s)) as [sth|] eqn:Hc.
    + rewrite (VerifyInclusionLatest_cached _ _ _ _ _ Hc).
      apply transport_calls_VerifyInclusionAt.
    + destruct (GetSTH (Client (receiver s)) ctx (world s)) as [[e|sth] w] eqn:Hg.
      * rewrite (VerifyInclusionLatest_fetch_err _ _ _ _ _ _ Hc Hg). cbn [snd].
        rewrite transport_calls_after_failed_fetch. lia.
      * rewrite (VerifyInclusionLatest_fetch_ok _ _ _ _ _ _ Hc Hg).
        etransitivity; [apply transport_calls_VerifyInclusionAt|].
        rewrite transport_calls_after_fetch. lia.
Qed.

(** X7. After a [VerifyInclusion] whose tree-head fetch succeeded, whatever
    came of the inclusion check itself, [VerifyInclusionLatest] checks
    against the tree head that was fetched and fetches none. *)
Theorem VerifyInclusion_then_Latest_reuses_tree_head
    (ctx ctx' : Ctx) (leaf leaf' : MerkleTreeLeaf) (timestamp timestamp' : Z)
    (sth : SignedTreeHead) (w : World) (s : State) :
  GetSTH (Client (receiver s)) ctx (world s) = (inr sth, w) ->
  VerifyInclusionLatest ctx' leaf' timestamp'
    (snd (VerifyInclusion ctx leaf timestamp s))
  = VerifyInclusionAt ctx' leaf' timestamp' (TreeSize sth) (SHA256RootHash sth)
      (snd (VerifyInclusion ctx leaf timestamp s)) /\
  fetches (trace (snd (VerifyInclusionLatest ctx' leaf' timestamp'
                         (snd (VerifyInclusion ctx leaf timestamp s)))))
  = S (fetches (trace s)).
Proof.
  intros Hg.
  assert (Hc : lastSTH (receiver (snd (VerifyInclusion ctx leaf timestamp s)))
               = Some sth).
  { rewrite (VerifyInclusion_fetch_ok _ _ _ _ _ _ Hg).
    rewrite lastSTH_VerifyInclusionAt. reflexivity. }
  split.
  - apply VerifyInclusionLatest_cached, Hc.
  - rewrite (proj1 (VerifyInclusionLatest_cached_frame _ _ _ _ _ Hc)).
    rewrite (VerifyInclusion_fetch_ok _ _ _ _ _ _ Hg).
    rewrite fetches_VerifyInclusionAt. apply fetches_after_fetch.
Qed.

(** X8. When the tree-head fetch fails the call stops there: no proof is
    requested and no timestamped entry is written, the leaf of the caller
    keeps the timestamp it had. *)
Theorem failed_fetch_leaves_leaf_untouched
    (ctx : Ctx) (leaf : MerkleTreeLeaf) (timestamp : Z) (s : State)
    (err : error) (w : World) :
  GetSTH (Client (receiver s)) ctx (world s) = (inl err, w) ->
  ((forall q, heap (snd (VerifyInclusion ctx leaf timestamp s)) q = heap s q) /\
   trace (snd (VerifyInclusion ctx leaf timestamp s))
     = trace s ++ [EvGetSTH (inl err)] /\
   world (snd (VerifyInclusion ctx leaf timestamp s)) = w) /\
  (lastSTH (receiver s) = None ->
   (forall q, heap (snd (VerifyInclusionLatest ctx leaf timestamp s)) q = heap s q) /\
   trace (snd (VerifyInclusionLatest ctx leaf timestamp s))
     = trace s ++ [EvGetSTH (inl err)] /\
   world (snd (VerifyInclusionLatest ctx leaf timestamp s)) = w).
Proof.
  intros Hg. split.
  - rewrite (VerifyInclusion_fetch_err _ _ _ _ _ _ Hg). repeat split.
  - intros Hc. rewrite (VerifyInclusionLatest_fetch_err _ _ _ _ _ _ Hc Hg).
    repeat split.
Qed.

Lemma int64_of_uint64_large (x : Z) :
  2 ^ 63 <= x < 2 ^ 64 -> int64_of_uint64 x = x - 2 ^ 64.
Proof.
  intros H. unfold int64_of_uint64, wrap_int64.
  replace (x + 2 ^ 63) with (x - 2 ^ 63 + 1 * 2 ^ 64) by ring.
  rewrite Z_mod_plus_full, Z.mod_small; lia.
Qed.

(** The calls of a run of [VerifyInclusionAt] that reaches the Merkle
    verifier. *)
Lemma VerifyInclusionAt_trace_to_verifier
    ctx leaf timestamp treeSize rootHash p leafHash rsp w s :
  TimestampedEntry_ptr leaf = Some p ->
  LeafHashForLeaf leaf (set_Timestamp timestamp (heap s p)) = inr leafHash ->
  GetProofByHash (Client (receiver s)) ctx leafHash treeSize (world s)
    = (inr rsp, w) ->
  trace (snd (VerifyInclusionAt ctx leaf timestamp treeSize rootHash s))
  = trace s ++
    [EvStoreTimestamp p timestamp;
     EvLeafHashForLeaf leaf (set_Timestamp timestamp (heap s p));
     EvGetProofByHash leafHash treeSize (inr rsp);
     EvVerifyInclusionProof (LeafIndex rsp) (int64_of_uint64 treeSize)
       (AuditPath rsp) rootHash leafHash].
Proof.
  intros Hp Hh Hg.
  destruct (VerifyInclusionAt_run ctx leaf timestamp treeSize rootHash p s Hp)
    as (r & s' & Hrun & Hsteps).
  rewrite Hrun. cbn [snd].
  inversion Hsteps as [e err' s1 He Hh' [Hr [Hhp [Hw Ht]]]
                      |e lh err' w' s1 He Hh' Hg' [Hr [Hhp [Hw Ht]]]
                      |e lh rsp' err' w' s1 He Hh' Hg' Hv [Hr [Hhp [Hw Ht]]]
                      |e lh rsp' w' s1 He Hh' Hg' Hv [Hr [Hhp [Hw Ht]]]];
    subst e; rewrite Hh in Hh'; try discriminate Hh';
    injection Hh' as <-; rewrite Hg in Hg'; try discriminate Hg';
    injection Hg' as <- <-; exact Ht.
Qed.

(** X9. Checking the signature of an SCT and then the inclusion at the
    timestamp of that SCT works on one and the same entry: the entry the
    verifier saw is the entry that is hashed, and the second call leaves
    every timestamped entry as the first one left it. *)
Theorem signature_then_inclusion_same_entry
    (sct : SignedCertificateTimestamp) (ctx : Ctx) (leaf : MerkleTreeLeaf)
    (treeSize : Z) (rootHash : bytes) (p : loc) (s : State) :
  TimestampedEntry_ptr leaf = Some p ->
  In (EvVerifySCTSignature sct leaf (set_Timestamp (SCT_Timestamp sct) (heap s p)))
     (trace (snd (VerifySCTSignature sct leaf s))) /\
  In (EvLeafHashForLeaf leaf (set_Timestamp (SCT_Timestamp sct) (heap s p)))
     (trace (snd (VerifyInclusionAt ctx leaf (SCT_Timestamp sct) treeSize rootHash
                    (snd (VerifySCTSignature sct leaf s))))) /\
  forall q,
    heap (snd (VerifyInclusionAt ctx leaf (SCT_Timestamp sct) treeSize rootHash
                 (snd (VerifySCTSignature sct leaf s)))) q
    = heap (snd (VerifySCTSignature sct leaf s)) q.
Proof.
  intros Hp.
  destruct (VerifyInclusionAt_run ctx leaf (SCT_Timestamp sct) treeSize rootHash
              p (snd (VerifySCTSignature sct leaf s)) Hp)
    as (r & s2 & Hrun & Hsteps).
  rewrite Hrun. cbn [snd].
  assert (Hheap : forall q, heap (snd (VerifySCTSignature sct leaf s)) q
                  = if Nat.eqb q p
                    then set_Timestamp (SCT_Timestamp sct) (heap s p)
                    else heap s q).
  { intros q. exec. rewrite Hp. simpl.
    destruct (Verifier_VerifySCTSignature _ _ _ _); reflexivity. }
  assert (Htr : In (EvVerifySCTSignature sct leaf
                      (set_Timestamp (SCT_Timestamp sct) (heap s p)))
                   (trace (snd (VerifySCTSignature sct leaf s)))).
  { exec. rewrite Hp. simpl. rewrite Nat.eqb_refl.
    destruct (Verifier_VerifySCTSignature _ _ _ _); simpl;
      apply in_or_app; right; left; reflexivity. }
  split; [exact Htr|].
  assert (He : set_Timestamp (SCT_Timestamp sct)
                 (heap (snd (VerifySCTSignature sct leaf s)) p)
               = set_Timestamp (SCT_Timestamp sct) (heap s p)).
  { rewrite Hheap, Nat.eqb_refl. reflexivity. }
  split.
  - inversion Hsteps as [e err' s1 Hee Hh' [Hr [Hhp [Hw Ht]]]
                        |e lh err' w' s1 Hee Hh' Hg' [Hr [Hhp [Hw Ht]]]
                        |e lh rsp' err' w' s1 Hee Hh' Hg' Hv [Hr [Hhp [Hw Ht]]]
                        |e lh rsp' w' s1 Hee Hh' Hg' Hv [Hr [Hhp [Hw Ht]]]];
      subst e; rewrite Ht, He; apply in_or_app; right; simpl; auto.
  - intros q.
    destruct (InclusionAtSteps_frame _ _ _ _ _ _ _ _ _ Hsteps) as (_ & Hh2 & _).
    rewrite Hh2, He. destruct (Nat.eqb q p) eqn:Hq; [|reflexivity].
    apply Nat.eqb_eq in Hq. subst q. rewrite Hheap, Nat.eqb_refl. reflexivity.
Qed.

(** X10. The proof is requested for the tree size as given; the Merkle
    verifier is called with it converted to [int64]: the same number
    below 2^63, the number less 2^64 (a negative size) from 2^63 on. *)
Theorem tree_size_reaches_verifier_as_int64
    (ctx : Ctx) (leaf : MerkleTreeLeaf) (timestamp treeSize : Z)
    (rootHash : bytes) (p : loc) (leafHash : bytes)
    (rsp : GetProofByHashResponse) (w : World) (s : State) :
  TimestampedEntry_ptr leaf = Some p ->
  LeafHashForLeaf leaf (set_Timestamp timestamp (heap s p)) = inr leafHash ->
  GetProofByHash (Client (receiver s)) ctx leafHash treeSize (world s)
    = (inr rsp, w) ->
  In (EvGetProofByHash leafHash treeSize (inr rsp))
     (trace (snd (VerifyInclusionAt ctx leaf timestamp treeSize rootHash s))) /\
  (0 <= treeSize < 2 ^ 63 ->
   In (EvVerifyInclusionProof (LeafIndex rsp) treeSize (AuditPath rsp)
         rootHash leafHash)
      (trace (snd (VerifyInclusionAt ctx leaf timestamp treeSize rootHash s)))) /\
  (2 ^ 63 <= treeSize < 2 ^ 64 ->
   treeSize - 2 ^ 64 < 0 /\
   In (EvVerifyInclusionProof (LeafIndex rsp) (treeSize - 2 ^ 64) (AuditPath rsp)
         rootHash leafHash)
      (trace (snd (VerifyInclusionAt ctx leaf timestamp treeSize rootHash s)))).
Proof.
  intros Hp Hh Hg.
  rewrite (VerifyInclusionAt_trace_to_verifier _ _ _ _ _ _ _ _ _ _ Hp Hh Hg).
  split; [|split].
  - apply in_or_app. right. simpl. auto.
  - intros Hr. rewrite (int64_of_uint64_small _ Hr).
    apply in_or_app. right. simpl. auto.
  - intros Hr. rewrite (int64_of_uint64_large _ Hr). split; [lia|].
    apply in_or_app. right. simpl. auto.
Qed.

(** X11. A leaf without timestamped entry makes the calls panic at the
    store of the timestamp: [VerifySCTSignature] and [VerifyInclusionAt]
    before anything else happens, [VerifyInclusion] and an uncached
    [VerifyInclusionLatest] once the tree head is fetched and cached; if
    that fetch fails they return its error instead. *)
Theorem nil_entry_panics_at_store
    (sct : SignedCertificateTimestamp) (ctx : Ctx) (leaf : MerkleTreeLeaf)
    (timestamp treeSize : Z) (rootHash : bytes) (s : State) :
  TimestampedEntry_ptr leaf = None ->
  VerifySCTSignature sct leaf s = (Panicked, s) /\
  VerifyInclusionAt ctx leaf timestamp treeSize rootHash s = (Panicked, s) /\
  (forall sth, lastSTH (receiver s) = Some sth ->
               VerifyInclusionLatest ctx leaf timestamp s = (Panicked, s)) /\
  (forall sth w,
     GetSTH (Client (receiver s)) ctx (world s) = (inr sth, w) ->
     VerifyInclusion ctx leaf timestamp s = (Panicked, after_fetch sth w s) /\
     (lastSTH (receiver s) = None ->
      VerifyInclusionLatest ctx leaf timestamp s
        = (Panicked, after_fetch sth w s))) /\
  (forall err w,
     GetSTH (Client (receiver s)) ctx (world s) = (inl err, w) ->
     fst (VerifyInclusion ctx leaf timestamp s)
       = Returned (-1, Some (fetch_error (receiver s) err))).
Proof.
  intros Hp. split; [|split; [|split; [|split]]].
  - unfold VerifySCTSignature, store_Timestamp, self, bind, panic.
    rewrite Hp. reflexivity.
  - apply VerifyInclusionAt_nil, Hp.
  - intros sth Hc. rewrite (VerifyInclusionLatest_cached _ _ _ _ _ Hc).
    apply VerifyInclusionAt_nil, Hp.
  - intros sth w Hg. split.
    + rewrite (VerifyInclusion_fetch_ok _ _ _ _ _ _ Hg).
      apply VerifyInclusionAt_nil, Hp.
    + intros Hc. rewrite (VerifyInclusionLatest_fetch_ok _ _ _ _ _ _ Hc Hg).
      apply VerifyInclusionAt_nil, Hp.
  - intros err w Hg. rewrite (VerifyInclusion_fetch_err _ _ _ _ _ _ Hg).
    reflexivity.
Qed.

(** X21. [VerifyInclusion] is [VerifyInclusionLatest] run on an empty
    cache: the two return the same, and when the tree-head fetch succeeds
    they also leave the same state. *)
Theorem VerifyInclusion_is_Latest_on_empty_cache
    (ctx : Ctx) (leaf : MerkleTreeLeaf) (timestamp : Z) (s : State) :
  fst (VerifyInclusion ctx leaf timestamp s)
    = fst (VerifyInclusionLatest ctx leaf timestamp (with_cache None s)) /\
  forall sth w,
    GetSTH (Client (receiver s)) ctx (world s) = (inr sth, w) ->
    VerifyInclusion ctx leaf timestamp s
    = VerifyInclusionLatest ctx leaf timestamp (with_cache None s).
Proof.
  assert (Hn : lastSTH (receiver (with_cache None s)) = None) by reflexivity.
  split.
  - destruct (GetSTH (Client (receiver s)) ctx (world s)) as [[e|sth] w] eqn:Hg.
    + rewrite (VerifyInclusion_fetch_err _ _ _ _ _ _ Hg).
      rewrite (VerifyInclusionLatest_fetch_err ctx leaf timestamp
                 (with_cache None s) e w Hn Hg).
      reflexivity.
    + rewrite (VerifyInclusion_fetch_ok _ _ _ _ _ _ Hg).
      rewrite (VerifyInclusionLatest_fetch_ok ctx leaf timestamp
                 (with_cache None s) sth w Hn Hg).
      reflexivity.
  - intros sth w Hg.
    rewrite (VerifyInclusion_fetch_ok _ _ _ _ _ _ Hg).
    rewrite (VerifyInclusionLatest_fetch_ok ctx leaf timestamp
               (with_cache None s) sth w Hn Hg).
    reflexivity.
Qed.

End Verification.

(** * Further properties of the registry *)

Section Construction.

Context {C : Collaborators}.

(** X12. [NewLogInfo] creates its client for a URL that starts with
    https://: the URL of the log when it starts so, and otherwise that
    URL with https:// put in front, whatever scheme it may name. *)
Theorem NewLogInfo_client_url (log : Log) (hc : HttpClient) :
  exists url,
    String.prefix "https://" url = true /\
    (String.prefix "https://" (URL log) = true -> url = URL log) /\
    (String.prefix "https://" (URL log) = false ->
     url = "https://" +:+ URL log) /\
    NewLogInfo log hc
    = match client_New url hc (http_options log) with
      | inl err =>
          inl ("failed to create client for log " +:+
               Quote (Log_Description log) +:+ ": " +:+ err)
      | inr lc => newLogInfo log lc
      end.
Proof.
  unfold NewLogInfo, http_options.
  destruct (String.prefix "https://" (URL log)) eqn:Hpre.
  - exists (URL log). repeat split; auto. discriminate.
  - exists ("https://" +:+ URL log). repeat split; auto.
    + apply prefix_append.
    + discriminate.
Qed.

Lemma newLogInfo_client_only log lc lc' li :
  newLogInfo log lc = inr li ->
  exists li',
    newLogInfo log lc' = inr li' /\
    Client li' = lc' /\
    Description li' = Description li /\ MMD li' = MMD li /\
    Verifier li' = Verifier li /\ PublicKey li' = PublicKey li /\
    lastSTH li' = lastSTH li.
Proof.
  unfold newLogInfo.
  destruct (ParsePKIXPublicKey (Key log)) as [e|k]; [discriminate|].
  destruct (NewSignatureVerifier k) as [e|v]; [discriminate|].
  intros [= <-]. eexists. split; [reflexivity|]. simpl. auto 10.
Qed.

Lemma NewLogInfo_inv log hc li :
  NewLogInfo log hc = inr li ->
  exists url,
    String.prefix "https://" url = true /\
    client_New url hc (http_options log) = inr (Client li) /\
    newLogInfo log (Client li) = inr li.
Proof.
  unfold NewLogInfo, http_options.
  set (url := if String.prefix "https://" (URL log) then URL log
              else "https://" +:+ URL log).
  assert (Hurl : String.prefix "https://" url = true).
  { unfold url. destruct (String.prefix "https://" (URL log)) eqn:Hpre;
      [exact Hpre|apply prefix_append]. }
  destruct (client_New url hc _) as [e|lc] eqn:Hc; [discriminate|].
  intros Hn. destruct (newLogInfo_fields _ _ _ Hn) as (_ & Hcl & _).
  exists url. rewrite Hcl. auto.
Qed.

Lemma NewLogInfoOverDNS_inv log li :
  NewLogInfoOverDNS log = inr li ->
  DNSAPIEndpoint log <> "" /\
  dnsclient_New (DNSAPIEndpoint log) (dns_options log) = inr (Client li) /\
  newLogInfo log (Client li) = inr li.
Proof.
  unfold NewLogInfoOverDNS, dns_options.
  destruct (String.eqb (DNSAPIEndpoint log) "") eqn:He; [discriminate|].
  apply String.eqb_neq in He.
  destruct (dnsclient_New _ _) as [e|dc] eqn:Hc; [discriminate|].
  intros Hn. destruct (newLogInfo_fields _ _ _ Hn) as (_ & Hcl & _).
  rewrite Hcl. auto.
Qed.

(** X13. The [LogInfo] of a log built for HTTP and the one built for DNS
    differ in the client only: same description (the one of the log), same
    merge delay, same verifier, same key (the one of the log), and both
    start without a cached tree head. *)
Theorem HTTP_and_DNS_LogInfo_differ_in_client
    (log : Log) (hc : HttpClient) (li li' : LogInfo) :
  NewLogInfo log hc = inr li ->
  NewLogInfoOverDNSWrapper log hc = inr li' ->
  Description li = Log_Description log /\
  PublicKey li = Key log /\
  Description li' = Description li /\
  MMD li' = MMD li /\
  Verifier li' = Verifier li /\
  PublicKey li' = PublicKey li /\
  lastSTH li = None /\ lastSTH li' = None.
Proof.
  intros Hh Hd.
  destruct (NewLogInfo_inv _ _ _ Hh) as (url & _ & _ & Hn).
  destruct (NewLogInfoOverDNS_inv _ _ Hd) as (_ & _ & Hn').
  destruct (newLogInfo_fields _ _ _ Hn) as (Hdesc & _ & Hkey & Hsth).
  destruct (newLogInfo_client_only _ _ (Client li') _ Hn)
    as (li2 & Hn2 & _ & H1 & H2 & H3 & H4 & H5).
  rewrite Hn' in Hn2. injection Hn2 as <-.
  rewrite H5. auto 10.
Qed.

(** X14. The merge delay of a [LogInfo] is the one of the log in
    nanoseconds, as an [int64]: exact for delays up to 9223372036 seconds
    either way, wrapped around beyond. *)
Theorem MMD_in_nanoseconds (log : Log) (lc : CheckLogClient) (li : LogInfo) :
  newLogInfo log lc = inr li ->
  - 2 ^ 63 <= MMD li < 2 ^ 63 /\
  (MMD li - MaximumMergeDelay log * 1000000000) mod 2 ^ 64 = 0 /\
  (- 9223372036 <= MaximumMergeDelay log <= 9223372036 ->
   MMD li = MaximumMergeDelay log * 1000000000).
Proof.
  unfold newLogInfo.
  destruct (ParsePKIXPublicKey (Key log)) as [e|k]; [discriminate|].
  destruct (NewSignatureVerifier k) as [e|v]; [discriminate|].
  intros [= <-]. cbn [MMD]. unfold wrap_int64, time_Second.
  set (x := MaximumMergeDelay log * 1000000000).
  assert (Hm := Z.mod_pos_bound (x + 2 ^ 63) (2 ^ 64) ltac:(lia)).
  split; [lia|]. split.
  - replace ((x + 2 ^ 63) mod 2 ^ 64 - 2 ^ 63 - x)
      with ((x + 2 ^ 63) mod 2 ^ 64 - (x + 2 ^ 63)) by ring.
    rewrite Zminus_mod, Zmod_mod, <- Zminus_mod, Z.sub_diag. reflexivity.
  - intros Hr. rewrite Z.mod_small; lia.
Qed.

(** *** The loop, for any factory *)

Section Loop.

Variable hc : HttpClient.
Variable infoFactory : Log -> HttpClient -> error + LogInfo.

Lemma range_map_or_error (logs : list Log) (acc : gmap bytes LogInfo) :
  (exists m, logInfoByKeyHash_range logs hc infoFactory acc = (Some m, None)) \/
  (exists err, logInfoByKeyHash_range logs hc infoFactory acc = (None, Some err)).
Proof.
  revert acc. induction logs as [|l logs IH]; intros acc; simpl.
  - left. eauto.
  - destruct (infoFactory l hc) as [e|li]; [right; eauto|apply IH].
Qed.

Lemma range_success_inv (logs : list Log) (acc m : gmap bytes LogInfo) :
  logInfoByKeyHash_range logs hc infoFactory acc = (Some m, None) ->
  Forall (builds infoFactory hc) logs.
Proof.
  revert acc. induction logs as [|l logs IH]; intros acc; simpl.
  - constructor.
  - destruct (infoFactory l hc) as [e|li] eqn:Hl; [discriminate|].
    intros H. constructor; [exists li; exact Hl|apply (IH _ H)].
Qed.

Lemma range_size_le (logs : list Log) (acc m : gmap bytes LogInfo) :
  logInfoByKeyHash_range logs hc infoFactory acc = (Some m, None) ->
  (size m <= size acc + length logs)%nat.
Proof.
  revert acc. induction logs as [|l logs IH]; intros acc; simpl.
  - intros [= <-]. lia.
  - destruct (infoFactory l hc) as [e|li]; [discriminate|].
    intros H. apply IH in H. rewrite map_size_insert in H.
    destruct (acc !! Sum256 (Key l)); simpl in H; lia.
Qed.

Lemma range_error_prefix (pre post : list Log) (acc : gmap bytes LogInfo) err :
  logInfoByKeyHash_range pre hc infoFactory acc = (None, Some err) ->
  logInfoByKeyHash_range (pre ++ post) hc infoFactory acc = (None, Some err).
Proof.
  revert acc. induction pre as [|l pre IH]; intros acc; simpl.
  - discriminate.
  - destruct (infoFactory l hc) as [e|li]; [auto|apply IH].
Qed.

(** With different hashes, the last log with hash [h] is the log with
    hash [h]. *)
Lemma last_with_hash_In (logs : list Log) (log : Log) :
  NoDup (map (fun l => Sum256 (Key l)) logs) ->
  In log logs ->
  last_with_hash (Sum256 (Key log)) logs = Some log.
Proof.
  induction logs as [|l logs IH]; intros Hnd Hin; [destruct Hin|].
  cbn [map] in Hnd. apply NoDup_cons in Hnd. destruct Hnd as [Hnotin Hnd].
  cbn [last_with_hash].
  destruct (last_with_hash (Sum256 (Key log)) logs) as [l'|] eqn:Hl.
  - destruct Hin as [<-|Hin]; [|exact (IH Hnd Hin)].
    apply last_with_hash_Some in Hl. destruct Hl as [Hin' Hh].
    exfalso. apply Hnotin. rewrite <- Hh.
    apply list_elem_of_In, in_map_iff. exists l'. auto.
  - destruct Hin as [<-|Hin].
    + destruct (decide (Sum256 (Key l) = Sum256 (Key l))); congruence.
    + discriminate (IH Hnd Hin).
Qed.

Lemma last_with_hash_Permutation (logs logs' : list Log) (h : bytes) :
  Permutation logs logs' ->
  NoDup (map (fun l => Sum256 (Key l)) logs) ->
  last_with_hash h logs = last_with_hash h logs'.
Proof.
  intros Hperm Hnd.
  assert (Hnd' : NoDup (map (fun l => Sum256 (Key l)) logs')).
  { assert (Hp := Permutation_map (fun l => Sum256 (Key l)) Hperm).
    rewrite <- Hp. exact Hnd. }
  destruct (last_with_hash h logs) as [l|] eqn:Hl.
  - apply last_with_hash_Some in Hl. destruct Hl as [Hin <-].
    symmetry. apply last_with_hash_In; [exact Hnd'|].
    eapply Permutation_in; eassumption.
  - destruct (last_with_hash h logs') as [l'|] eqn:Hl'; [|reflexivity].
    apply last_with_hash_Some in Hl'. destruct Hl' as [Hin Hh].
    exfalso. apply (last_with_hash_None _ _ Hl l'); [|exact Hh].
    eapply Permutation_in; [apply Permutation_sym, Hperm|exact Hin].
Qed.

Lemma logInfoByKeyHash_lookup (ll : LogList) (m : gmap bytes LogInfo) :
  logInfoByKeyHash ll hc infoFactory = (Some m, None) ->
  forall h, m !! h = last_with_hash h (Logs ll) ≫= built infoFactory hc.
Proof.
  intros Hrun h. unfold logInfoByKeyHash in Hrun.
  destruct (range_all_built hc infoFactory (Logs ll) ∅
              (range_success_inv _ _ _ Hrun)) as (m' & Hm' & Hlk).
  rewrite Hrun in Hm'. injection Hm' as <-. rewrite Hlk.
  destruct (last_with_hash h (Logs ll)); [reflexivity|apply lookup_empty].
Qed.

Lemma logInfoByKeyHash_Permutation (ll ll' : LogList) (m : gmap bytes LogInfo) :
  Permutation (Logs ll) (Logs ll') ->
  NoDup (map (fun l => Sum256 (Key l)) (Logs ll)) ->
  logInfoByKeyHash ll hc infoFactory = (Some m, None) ->
  logInfoByKeyHash ll' hc infoFactory = (Some m, None).
Proof.
  intros Hperm Hnd Hrun.
  assert (Hall : Forall (builds infoFactory hc) (Logs ll')).
  { apply Forall_forall. intros l Hin.
    assert (Hall := range_success_inv _ _ _ Hrun).
    rewrite Forall_forall in Hall. apply Hall.
    apply list_elem_of_In. apply list_elem_of_In in Hin.
    eapply Permutation_in; [apply Permutation_sym, Hperm|exact Hin]. }
  destruct (range_all_built hc infoFactory (Logs ll') ∅ Hall) as (m' & Hm' & _).
  unfold logInfoByKeyHash at 1. rewrite Hm'. do 2 f_equal.
  apply map_eq. intros h.
  rewrite (logInfoByKeyHash_lookup ll' m' Hm').
  rewrite (logInfoByKeyHash_lookup ll m Hrun).
  rewrite (last_with_hash_Permutation _ _ h Hperm Hnd). reflexivity.
Qed.

Lemma logInfoByKeyHash_success_iff (ll : LogList) :
  (exists m, logInfoByKeyHash ll hc infoFactory = (Some m, None)) <->
  Forall (builds infoFactory hc) (Logs ll).
Proof.
  split.
  - intros [m Hm]. apply (range_success_inv _ _ _ Hm).
  - intros Hall.
    destruct (range_all_built hc infoFactory (Logs ll) ∅ Hall) as (m & Hm & _).
    exists m. exact Hm.
Qed.

Lemma logInfoByKeyHash_stored (ll : LogList) (m : gmap bytes LogInfo) h li :
  logInfoByKeyHash ll hc infoFactory = (Some m, None) ->
  m !! h = Some li ->
  exists log,
    In log (Logs ll) /\ Sum256 (Key log) = h /\ infoFactory log hc = inr li.
Proof.
  intros Hrun Hlk. rewrite (logInfoByKeyHash_lookup ll m Hrun) in Hlk.
  destruct (last_with_hash h (Logs ll)) as [log|] eqn:Hl; [|discriminate].
  apply last_with_hash_Some in Hl. destruct Hl as [Hin Hh].
  exists log. split; [exact Hin|]. split; [exact Hh|].
  simpl in Hlk. unfold built in Hlk.
  destruct (infoFactory log hc); congruence.
Qed.

End Loop.

Lemma NewLogInfo_stored_fields log hc li :
  NewLogInfo log hc = inr li ->
  Description li = Log_Description log /\ PublicKey li = Key log /\
  lastSTH li = None.
Proof.
  intros H. destruct (NewLogInfo_inv _ _ _ H) as (url & _ & _ & Hn).
  destruct (newLogInfo_fields _ _ _ Hn) as (Hd & _ & Hk & Hs). auto.
Qed.

Lemma NewLogInfoOverDNS_stored_fields log li :
  NewLogInfoOverDNS log = inr li ->
  Description li = Log_Description log /\ PublicKey li = Key log /\
  lastSTH li = None.
Proof.
  intros H. destruct (NewLogInfoOverDNS_inv _ _ H) as (_ & _ & Hn).
  destruct (newLogInfo_fields _ _ _ Hn) as (Hd & _ & Hk & Hs). auto.
Qed.

Lemma in_registry_stored ll hc m h li :
  in_registry ll hc m ->
  m !! h = Some li ->
  exists log,
    In log (Logs ll) /\ Sum256 (Key log) = h /\
    Description li = Log_Description log /\ PublicKey li = Key log /\
    lastSTH li = None.
Proof.
  intros [Hrun|Hrun] Hlk;
    destruct (logInfoByKeyHash_stored _ _ _ _ _ _ Hrun Hlk)
      as (log & Hin & Hh & Hf);
    exists log; (split; [exact Hin|]); (split; [exact Hh|]).
  - apply (NewLogInfo_stored_fields _ _ _ Hf).
  - apply (NewLogInfoOverDNS_stored_fields _ _ Hf).
Qed.

(** X15. Registry construction returns a map and no error, or an error
    and no map, never both and never neither; it returns a map exactly
    when every log of the list can be built (for the empty list, the empty
    map); and once a list fails, it fails with the same error whatever
    logs are added after it. *)
Theorem registry_map_or_error (ll : LogList) (hc : HttpClient) :
  ((exists m, LogInfoByKeyHash ll hc = (Some m, None)) \/
   (exists err, LogInfoByKeyHash ll hc = (None, Some err))) /\
  ((exists m, LogInfoByKeyHashOverDNS ll hc = (Some m, None)) \/
   (exists err, LogInfoByKeyHashOverDNS ll hc = (None, Some err))) /\
  ((exists m, LogInfoByKeyHash ll hc = (Some m, None)) <->
   Forall (builds NewLogInfo hc) (Logs ll)) /\
  ((exists m, LogInfoByKeyHashOverDNS ll hc = (Some m, None)) <->
   Forall (builds NewLogInfoOverDNSWrapper hc) (Logs ll)) /\
  (Logs ll = [] ->
   LogInfoByKeyHash ll hc = (Some ∅, None) /\
   LogInfoByKeyHashOverDNS ll hc = (Some ∅, None)) /\
  (forall err more,
     LogInfoByKeyHash ll hc = (None, Some err) ->
     LogInfoByKeyHash {| Logs := Logs ll ++ more |} hc = (None, Some err)) /\
  (forall err more,
     LogInfoByKeyHashOverDNS ll hc = (None, Some err) ->
     LogInfoByKeyHashOverDNS {| Logs := Logs ll ++ more |} hc = (None, Some err)).
Proof.
  split; [apply range_map_or_error|].
  split; [apply range_map_or_error|].
  split; [apply logInfoByKeyHash_success_iff|].
  split; [apply logInfoByKeyHash_success_iff|].
  split.
  - intros Hnil.
    unfold LogInfoByKeyHash, LogInfoByKeyHashOverDNS, logInfoByKeyHash.
    rewrite Hnil. split; reflexivity.
  - split; intros err more H; apply range_error_prefix; exact H.
Qed.

(** X16. In a registry every [LogInfo] is filed under the SHA-256 hash of
    its own public key, carries the description and the key of a log of
    the list and has no tree head cached; the map has no more entries
    than the list has logs. *)
Theorem registry_entries_under_own_key_hash
    (ll : LogList) (hc : HttpClient) (m : gmap bytes LogInfo) :
  in_registry ll hc m ->
  (size m <= length (Logs ll))%nat /\
  forall h li,
    m !! h = Some li ->
    h = Sum256 (PublicKey li) /\
    lastSTH li = None /\
    exists log,
      In log (Logs ll) /\ Key log = PublicKey li /\
      Log_Description log = Description li.
Proof.
  intros Hreg. split.
  - destruct Hreg as [Hrun|Hrun];
      apply range_size_le in Hrun; rewrite map_size_empty in Hrun; exact Hrun.
  - intros h li Hlk.
    destruct (in_registry_stored _ _ _ _ _ Hreg Hlk)
      as (log & Hin & Hh & Hd & Hk & Hs).
    split; [rewrite Hk; auto|]. split; [exact Hs|].
    exists log. auto.
Qed.

(** X17. When the keys of the logs have different hashes, the order of the
    list does not matter: a list that builds a map builds the same map in
    any other order. *)
Theorem registry_order_irrelevant
    (ll ll' : LogList) (hc : HttpClient) (m : gmap bytes LogInfo) :
  Permutation (Logs ll) (Logs ll') ->
  NoDup (map (fun l => Sum256 (Key l)) (Logs ll)) ->
  (LogInfoByKeyHash ll hc = (Some m, None) ->
   LogInfoByKeyHash ll' hc = (Some m, None)) /\
  (LogInfoByKeyHashOverDNS ll hc = (Some m, None) ->
   LogInfoByKeyHashOverDNS ll' hc = (Some m, None)).
Proof.
  intros Hperm Hnd.
  split; apply logInfoByKeyHash_Permutation; assumption.
Qed.

(** X18. Over DNS, one log of the list without DNS endpoint is enough for
    the construction to fail: an error and no map, wherever the log
    stands in the list and whatever its key. *)
Theorem DNS_registry_needs_every_endpoint (ll : LogList) (hc : HttpClient) :
  Exists (fun log => DNSAPIEndpoint log = "") (Logs ll) ->
  exists err, LogInfoByKeyHashOverDNS ll hc = (None, Some err).
Proof.
  intros Hex.
  destruct (range_map_or_error hc NewLogInfoOverDNSWrapper (Logs ll) ∅)
    as [[m Hm]|Herr]; [|exact Herr].
  exfalso. apply range_success_inv in Hm.
  apply Exists_exists in Hex. destruct Hex as (log & Hin & Hempty).
  rewrite Forall_forall in Hm. destruct (Hm log Hin) as [li Hli].
  destruct (NewLogInfoOverDNS_inv _ _ Hli) as (Hne & _). contradiction.
Qed.

(** X19. The client of every [LogInfo] of a registry was created with the
    public key of that [LogInfo] as its [PublicKeyDER]: over HTTP for a
    URL starting with https://, over DNS for the (non-empty) DNS endpoint
    of the log. *)
Theorem registry_clients_bound_to_keys
    (ll : LogList) (hc : HttpClient) (m : gmap bytes LogInfo)
    (h : bytes) (li : LogInfo) :
  m !! h = Some li ->
  (LogInfoByKeyHash ll hc = (Some m, None) ->
   exists url,
     String.prefix "https://" url = true /\
     client_New url hc
       {| PublicKeyDER := PublicKey li; UserAgent := "ct-go-logclient" |}
     = inr (Client li)) /\
  (LogInfoByKeyHashOverDNS ll hc = (Some m, None) ->
   exists log,
     In log (Logs ll) /\ DNSAPIEndpoint log <> "" /\
     dnsclient_New (DNSAPIEndpoint log)
       {| PublicKeyDER := PublicKey li; UserAgent := "" |}
     = inr (Client li)).
Proof.
  intros Hlk. split; intros Hrun;
    destruct (logInfoByKeyHash_stored _ _ _ _ _ _ Hrun Hlk)
      as (log & Hin & Hh & Hf).
  - destruct (NewLogInfo_inv _ _ _ Hf) as (url & Hurl & Hc & Hn).
    destruct (newLogInfo_fields _ _ _ Hn) as (_ & _ & Hk & _).
    exists url. split; [exact Hurl|]. rewrite Hk. exact Hc.
  - destruct (NewLogInfoOverDNS_inv _ _ Hf) as (Hne & Hc & Hn).
    destruct (newLogInfo_fields _ _ _ Hn) as (_ & _ & Hk & _).
    exists log. split; [exact Hin|]. split; [exact Hne|].
    rewrite Hk. exact Hc.
Qed.

Lemma VerifyInclusionLatest_uncached_fetches ctx leaf timestamp s :
  lastSTH (receiver s) = None ->
  fetches (trace (snd (VerifyInclusionLatest ctx leaf timestamp s)))
  = S (fetches (trace s)).
Proof.
  intros Hn.
  destruct (GetSTH (Client (receiver s)) ctx (world s)) as [[err|sth] w] eqn:Hg.
  - rewrite (VerifyInclusionLatest_fetch_err _ _ _ _ _ _ Hn Hg). cbn [snd].
    apply fetches_after_failed_fetch.
  - rewrite (VerifyInclusionLatest_fetch_ok _ _ _ _ _ _ Hn Hg).
    rewrite fetches_VerifyInclusionAt. apply fetches_after_fetch.
Qed.

(** X20. The first [VerifyInclusionLatest] on a [LogInfo] taken from a new
    registry fetches a tree head, from the client of that [LogInfo];
    when the fetch succeeds the [LogInfo] has it cached from then on. *)
Theorem first_Latest_on_registry_LogInfo_fetches
    (ll : LogList) (hc : HttpClient) (m : gmap bytes LogInfo)
    (h : bytes) (li : LogInfo) (ctx : Ctx) (leaf : MerkleTreeLeaf)
    (timestamp : Z) (s : State) :
  in_registry ll hc m ->
  m !! h = Some li ->
  receiver s = li ->
  fetches (trace (snd (VerifyInclusionLatest ctx leaf timestamp s)))
    = S (fetches (trace s)) /\
  forall sth w,
    GetSTH (Client li) ctx (world s) = (inr sth, w) ->
    lastSTH (receiver (snd (VerifyInclusionLatest ctx leaf timestamp s)))
      = Some sth.
Proof.
  intros Hreg Hlk Hrec.
  destruct (in_registry_stored _ _ _ _ _ Hreg Hlk) as (_ & _ & _ & _ & _ & Hs).
  assert (Hn : lastSTH (receiver s) = None) by (rewrite Hrec; exact Hs).
  split; [apply VerifyInclusionLatest_uncached_fetches, Hn|].
  intros sth w Hg. rewrite <- Hrec in Hg.
  rewrite (VerifyInclusionLatest_fetch_ok _ _ _ _ _ _ Hn Hg).
  rewrite lastSTH_VerifyInclusionAt. reflexivity.
Qed.

End Construction.

(** * The properties on the test log *)

#[local] Existing Instance TestLog.env.

(** The leaf the test transport reports at index 5 of the 10-leaf tree:
    [VerifyInclusionLatest] returns 5 and the cache then holds the 10-leaf
    tree head. *)
Example VerifyInclusionLatest_on_test_log :
  fst (VerifyInclusionLatest tt TestLog.leaf0 7 (TestLog.start 1 None))
    = Returned (5, None) /\
  lastSTH (receiver (snd (VerifyInclusionLatest tt TestLog.leaf0 7
                            (TestLog.start 1 None))))
    = Some TestLog.sth10 /\
  trace (snd (VerifyInclusionLatest tt TestLog.leaf0 7 (TestLog.start 1 None)))
    = [EvGetSTH (inr TestLog.sth10); EvSetSTH (Some TestLog.sth10);
       EvStoreTimestamp 0%nat 7;
       EvLeafHashForLeaf TestLog.leaf0 (set_Timestamp 7 TestLog.entry0);
       EvGetProofByHash (repeat "007"%byte 32) 10
         (inr {| LeafIndex := 5; AuditPath := [] |});
       EvVerifyInclusionProof 5 10 [] TestLog.root10 (repeat "007"%byte 32)].
Proof. repeat split. Qed.

(** A root other than the one the proof recomputes is refused. *)
Example VerifyInclusionAt_wrong_root :
  fst (VerifyInclusionAt tt TestLog.leaf0 7 10 [] (TestLog.start 1 None))
    = Returned (-1, Some "failed to verify inclusion proof at size 10: calculated root mismatch").
Proof. reflexivity. Qed.

(** A leaf without timestamped entry: the store of the timestamp panics. *)
Example VerifySCTSignature_nil_entry :
  fst (VerifySCTSignature TestLog.sct99
         {| Version := 0; LeafType := 0; TimestampedEntry_ptr := None |}
         (TestLog.start 1 None))
    = Panicked.
Proof. reflexivity. Qed.

(** A tree size of 2^63 reaches the Merkle verifier as [-2^63]. *)
Example int64_of_uint64_wraps : int64_of_uint64 (2 ^ 63) = - 2 ^ 63.
Proof. reflexivity. Qed.

(** One log listed: a map with exactly one entry, at the hash of its key. *)
Example LogInfoByKeyHash_one_log :
  exists m,
    LogInfoByKeyHash {| Logs := [TestLog.test_log] |} tt = (Some m, None) /\
    size m = 1%nat /\
    Description <$> (m !! Sum256 (Key TestLog.test_log)) = Some "Test Log".
Proof.
  eexists. split; [reflexivity|]. split; vm_compute; reflexivity.
Qed.

(** Over DNS, a log without DNS endpoint is refused. *)
Example LogInfoByKeyHashOverDNS_no_endpoint :
  LogInfoByKeyHashOverDNS TestLog.two_logs tt
  = (None, Some ("no available DNS endpoint for log "
                 +:+ TestLog.plain_Quote "Other Log")).
Proof. reflexivity. Qed.

Lemma VerifyInclusionAt_steps_in_order_witness :
  exists r s',
    VerifyInclusionAt (C := TestLog.env) tt TestLog.leaf0 7 10 TestLog.root10
      (TestLog.start 1 None) = (Returned r, s') /\
    InclusionAtOrder tt TestLog.leaf0 7 10 TestLog.root10 0%nat
      {| Timestamp := 7; EntryType := 0; EntryData := ["010"%byte] |} 10
      (TestLog.start 1 None) r s'.
Proof.
  destruct (proj2 (VerifyInclusionAt_steps_in_order (C := TestLog.env) tt
                     TestLog.leaf0 7 10 TestLog.root10 (TestLog.start 1 None)
                     ltac:(lia))
              0%nat eq_refl)
    as (e & size64 & r & s' & Ht & Hty & Hd & Hlow & _ & Hrun & Hsteps).
  assert (He : e = {| Timestamp := 7; EntryType := 0; EntryData := ["010"%byte] |}).
  { destruct e as [t ty d]. simpl in Ht, Hty, Hd. subst t ty d. reflexivity. }
  assert (Hs : size64 = 10) by (apply Hlow; lia).
  subst e size64. exists r, s'. split; assumption.
Defined.

(** C1, as stated, fails twice.  On a leaf without timestamped entry the
    call panics: it returns neither an error nor an index, and makes no
    step.  And for the tree size 2^63 the Merkle verifier is called with
    the size -2^63, not with the tree size. *)
Lemma VerifyInclusionAt_panics_or_wraps :
  VerifyInclusionAt tt TestLog.bare_leaf 7 10 TestLog.root10 (TestLog.start 1 None)
    = (Panicked, TestLog.start 1 None) /\
  trace (snd (VerifyInclusionAt tt TestLog.leaf0 7 (2 ^ 63) TestLog.root10
                (TestLog.start 1 None)))
    = [EvStoreTimestamp 0%nat 7;
       EvLeafHashForLeaf TestLog.leaf0
         {| Timestamp := 7; EntryType := 0; EntryData := ["010"%byte] |};
       EvGetProofByHash (repeat "007"%byte 32) (2 ^ 63)
         (inr {| LeafIndex := 5; AuditPath := [] |});
       EvVerifyInclusionProof 5 (- 2 ^ 63) [] TestLog.root10
         (repeat "007"%byte 32)] /\
  ~ In (EvVerifyInclusionProof 5 (2 ^ 63) [] TestLog.root10
          (repeat "007"%byte 32))
       (trace (snd (VerifyInclusionAt tt TestLog.leaf0 7 (2 ^ 63) TestLog.root10
                      (TestLog.start 1 None)))).
Proof.
  split; [reflexivity|]. split; [reflexivity|].
  intros Hin. vm_compute in Hin.
  destruct Hin as [H|[H|[H|[H|[]]]]]; discriminate H.
Qed.



Lemma VerifyInclusion_fetches_and_replaces_witness :
  TreeSize TestLog.sth10 < TreeSize TestLog.sth20 /\
  lastSTH (receiver (TestLog.start 1 (Some TestLog.sth20))) = Some TestLog.sth20 /\
  lastSTH (receiver (snd (VerifyInclusion tt TestLog.leaf0 7
                            (TestLog.start 1 (Some TestLog.sth20)))))
    = Some TestLog.sth10.
Proof.
  split; [reflexivity|]. split; [reflexivity|].
  apply (proj2 (VerifyInclusion_fetches_and_replaces (C := TestLog.env) tt TestLog.leaf0 7
                  (TestLog.start 1 (Some TestLog.sth20)))
           TestLog.sth10 1%nat).
  reflexivity.
Defined.

Lemma errors_carry_description_or_tree_size_witness :
  (fst (VerifySCTSignature TestLog.unsigned_sct TestLog.leaf0 (TestLog.start 1 None))
     = Returned (Some ("failed to verify SCT signature from log "
                       +:+ TestLog.plain_Quote "Test Log" +:+ ": no signature")) /\
   names_log "Test Log"
     ("failed to verify SCT signature from log "
      +:+ TestLog.plain_Quote "Test Log" +:+ ": no signature")) /\
  exists pre log post,
    Logs TestLog.one_keyless = pre ++ log :: post /\
    Forall (builds NewLogInfo tt) pre /\
    NewLogInfo log tt
      = inl ("failed to parse public key data for log "
             +:+ TestLog.plain_Quote "Keyless Log"
             +:+ ": asn1: syntax error: sequence truncated") /\
    names_log (Log_Description log)
      ("failed to parse public key data for log "
       +:+ TestLog.plain_Quote "Keyless Log"
       +:+ ": asn1: syntax error: sequence truncated").
Proof.
  destruct (errors_carry_description_or_tree_size (C := TestLog.env)
              TestLog.unsigned_sct tt TestLog.leaf0 7 10 TestLog.root10
              (TestLog.start 1 None) TestLog.one_keyless tt)
    as (Hsct & _ & _ & _ & _ & Hreg & _).
  split.
  - split; [reflexivity|]. eapply Hsct. reflexivity.
  - eapply Hreg. reflexivity.
Defined.

(** C4, as stated, fails: the error of [VerifyInclusionAt] for a failed
    proof request carries the tree size and the cause, not the
    description of the log. *)
Lemma VerifyInclusionAt_error_without_description :
  Description (receiver (TestLog.start 0 None)) = "Test Log" /\
  fst (VerifyInclusionAt tt TestLog.leaf0 7 10 TestLog.root10 (TestLog.start 0 None))
    = Returned (-1, Some "failed to GetProofByHash(sct,size=10): context deadline exceeded") /\
  Contains "failed to GetProofByHash(sct,size=10): context deadline exceeded"
    "Test Log" = false /\
  ~ names_log "Test Log"
      "failed to GetProofByHash(sct,size=10): context deadline exceeded".
Proof.
  split; [reflexivity|]. split; [reflexivity|]. split; [reflexivity|].
  unfold names_log. vm_compute. discriminate.
Qed.



Lemma VerifyInclusionLatest_keeps_cached_STH_witness :
  lastSTH (receiver (snd (VerifyInclusionLatest tt TestLog.leaf0 7
                            (TestLog.start 1 (Some TestLog.sth20)))))
    = Some TestLog.sth20.
Proof.
  apply (VerifyInclusionLatest_keeps_cached_STH (C := TestLog.env) tt TestLog.leaf0 7
           (TestLog.start 1 (Some TestLog.sth20)) TestLog.sth20).
  reflexivity.
Defined.

Lemma failed_fetch_keeps_cache_witness :
  exists e s',
    VerifyInclusion tt TestLog.leaf0 7 (TestLog.start 0 (Some TestLog.sth20))
      = (Returned (-1, Some e), s') /\
    lastSTH (receiver s') = Some TestLog.sth20.
Proof.
  apply (proj1 (failed_fetch_keeps_cache (C := TestLog.env) tt TestLog.leaf0 7
                  (TestLog.start 0 (Some TestLog.sth20))
                  "context deadline exceeded" 1%nat eq_refl)).
Defined.

Lemma inclusion_index_or_minus_one_witness :
  fst (VerifyInclusionLatest tt TestLog.leaf0 7 (TestLog.start 1 None))
    = Returned (5, None) /\
  index_agrees tt (TestLog.start 1 None) 5 None
    (snd (VerifyInclusionLatest tt TestLog.leaf0 7 (TestLog.start 1 None))).
Proof.
  split; [reflexivity|].
  apply (proj1 (inclusion_index_or_minus_one (C := TestLog.env) tt TestLog.leaf0 7 10 TestLog.root10
                  (TestLog.start 1 None) 5 None
                  (snd (VerifyInclusionLatest (C := TestLog.env) tt TestLog.leaf0 7
                          (TestLog.start 1 None))))).
  reflexivity.
Defined.

Lemma registry_construction_all_or_nothing_witness :
  (exists m,
     LogInfoByKeyHash TestLog.two_logs tt = (Some m, None) /\
     size m = 2%nat) /\
  (exists err,
     LogInfoByKeyHash TestLog.one_keyless tt = (None, Some err) /\
     names_log "Keyless Log" err).
Proof.
  split.
  - destruct (proj2 (proj1 (registry_construction_all_or_nothing (C := TestLog.env)
                              TestLog.two_logs tt)))
      as (m & Hm & _ & Hsize).
    + repeat constructor; eexists; reflexivity.
    + exists m. split; [exact Hm|]. apply Hsize.
      apply NoDup_cons. split.
      * intros Hin. apply list_elem_of_In in Hin. simpl in Hin.
        destruct Hin as [Heq|[]]. discriminate Heq.
      * apply NoDup_cons. split; [|apply NoDup_nil_2].
        intros Hin. apply list_elem_of_In in Hin. destruct Hin.
  - eexists.
    apply (proj1 (proj1 (registry_construction_all_or_nothing (C := TestLog.env)
                           TestLog.one_keyless tt))
             [TestLog.test_log] TestLog.keyless_log [TestLog.other_log]).
    + reflexivity.
    + repeat constructor. eexists. reflexivity.
    + reflexivity.
Defined.

(** C8, as stated, fails: a list that names the same key twice builds both
    logs without error and the map holds one [LogInfo], the one of the
    second log, not one per log. *)
Lemma same_key_twice_one_LogInfo :
  length (Logs TestLog.same_key_twice) = 2%nat /\
  exists m,
    LogInfoByKeyHash TestLog.same_key_twice tt = (Some m, None) /\
    size m = 1%nat /\
    size m <> length (Logs TestLog.same_key_twice) /\
    Description <$> (m !! Sum256 (Key TestLog.test_log))
      = Some "Mirror of Test Log".
Proof.
  split; [reflexivity|].
  eexists. split; [reflexivity|].
  split; [vm_compute; reflexivity|].
  split; [vm_compute; discriminate|].
  vm_compute. reflexivity.
Qed.

(** * The further properties on the test log *)

Lemma two_logs_registry_built :
  LogInfoByKeyHash TestLog.two_logs tt = (Some TestLog.two_logs_registry, None).
Proof. reflexivity. Qed.

Lemma two_logs_hashes_differ :
  NoDup (map (fun l => Sum256 (Key l)) (Logs TestLog.two_logs)).
Proof.
  apply NoDup_cons. split.
  - intros Hin. apply list_elem_of_In in Hin. simpl in Hin.
    destruct Hin as [Heq|[]]. discriminate Heq.
  - apply NoDup_cons. split; [|apply NoDup_nil_2].
    intros Hin. apply list_elem_of_In in Hin. destruct Hin.
Defined.

Lemma VerifySCTSignature_checks_adjusted_leaf_witness :
  exists r s',
    VerifySCTSignature TestLog.sct99 TestLog.leaf0 (TestLog.start 1 None)
      = (Returned r, s') /\
    (r = None <->
     TestLog.test_VerifySCTSignature tt TestLog.sct99 TestLog.leaf0
       {| Timestamp := 99; EntryType := 0; EntryData := ["010"%byte] |} = None) /\
    heap s' 0%nat
      = {| Timestamp := 99; EntryType := 0; EntryData := ["010"%byte] |} /\
    receiver s' = TestLog.test_li 1 None /\
    world s' = 0%nat /\
    trace s' = [EvStoreTimestamp 0%nat 99;
                EvVerifySCTSignature TestLog.sct99 TestLog.leaf0
                  {| Timestamp := 99; EntryType := 0;
                     EntryData := ["010"%byte] |}].
Proof.
  destruct (VerifySCTSignature_checks_adjusted_leaf (C := TestLog.env)
              TestLog.sct99 TestLog.leaf0 0%nat (TestLog.start 1 None) eq_refl)
    as (e & r & s' & Ht & Hty & Hd & Hrun & Hiff & Hheap & _ & Hrec & Hw & Htr).
  assert (He : e = {| Timestamp := 99; EntryType := 0; EntryData := ["010"%byte] |}).
  { destruct e as [t ty d]. simpl in Ht, Hty, Hd. subst t ty d. reflexivity. }
  rewrite He in Hiff, Hheap, Htr. exists r, s'.
  split; [exact Hrun|]. split; [exact Hiff|]. split; [exact Hheap|].
  split; [exact Hrec|]. split; [exact Hw|exact Htr].
Defined.

Lemma old_timestamp_is_irrelevant_witness :
  fst (VerifyInclusionAt tt TestLog.leaf0 7 10 TestLog.root10
         (with_old_timestamp 0%nat 123456 (TestLog.start 1 None)))
  = fst (VerifyInclusionAt tt TestLog.leaf0 7 10 TestLog.root10
           (TestLog.start 1 None)).
Proof.
  apply (old_timestamp_is_irrelevant (C := TestLog.env) TestLog.sct99 tt
           TestLog.leaf0 7 10 TestLog.root10 0%nat 123456
           (TestLog.start 1 None)).
  reflexivity.
Defined.

Lemma transport_calls_per_verification_witness :
  transport_calls
    (trace (snd (VerifyInclusion tt TestLog.leaf0 7 (TestLog.start 1 None))))
  = 2%nat.
Proof.
  apply (proj1 (proj2 (transport_calls_per_verification (C := TestLog.env) tt
                         TestLog.leaf0 7 10 TestLog.root10
                         (TestLog.start 1 None)))
           5
           (snd (VerifyInclusion (C := TestLog.env) tt TestLog.leaf0 7
                   (TestLog.start 1 None)))).
  reflexivity.
Defined.

Lemma VerifyInclusion_then_Latest_reuses_tree_head_witness :
  fetches (trace (snd (VerifyInclusionLatest tt TestLog.leaf0 8
                         (snd (VerifyInclusion tt TestLog.leaf0 7
                                 (TestLog.start 1 (Some TestLog.sth20)))))))
  = 1%nat.
Proof.
  apply (VerifyInclusion_then_Latest_reuses_tree_head (C := TestLog.env) tt tt
           TestLog.leaf0 TestLog.leaf0 7 8 TestLog.sth10 1%nat
           (TestLog.start 1 (Some TestLog.sth20))).
  reflexivity.
Defined.

Lemma failed_fetch_leaves_leaf_untouched_witness :
  (forall q, heap (snd (VerifyInclusion tt TestLog.leaf0 7 (TestLog.start 0 None))) q
             = TestLog.entry0) /\
  trace (snd (VerifyInclusion tt TestLog.leaf0 7 (TestLog.start 0 None)))
    = [EvGetSTH (inl "context deadline exceeded")] /\
  world (snd (VerifyInclusion tt TestLog.leaf0 7 (TestLog.start 0 None))) = 1%nat.
Proof.
  apply (proj1 (failed_fetch_leaves_leaf_untouched (C := TestLog.env) tt
                  TestLog.leaf0 7 (TestLog.start 0 None)
                  "context deadline exceeded" 1%nat eq_refl)).
Defined.

Lemma signature_then_inclusion_same_entry_witness :
  In (EvLeafHashForLeaf TestLog.leaf0 (set_Timestamp 99 TestLog.entry0))
     (trace (snd (VerifyInclusionAt tt TestLog.leaf0 99 10 TestLog.root10
                    (snd (VerifySCTSignature TestLog.sct99 TestLog.leaf0
                            (TestLog.start 1 None)))))).
Proof.
  apply (signature_then_inclusion_same_entry (C := TestLog.env) TestLog.sct99 tt
           TestLog.leaf0 10 TestLog.root10 0%nat (TestLog.start 1 None)).
  reflexivity.
Defined.

Lemma tree_size_reaches_verifier_as_int64_witness :
  2 ^ 63 - 2 ^ 64 < 0 /\
  In (EvVerifyInclusionProof 5 (2 ^ 63 - 2 ^ 64) [] TestLog.root10
        (repeat "007"%byte 32))
     (trace (snd (VerifyInclusionAt tt TestLog.leaf0 7 (2 ^ 63) TestLog.root10
                    (TestLog.start 1 None)))).
Proof.
  apply (proj2 (proj2 (tree_size_reaches_verifier_as_int64 (C := TestLog.env) tt
                         TestLog.leaf0 7 (2 ^ 63) TestLog.root10 0%nat
                         (repeat "007"%byte 32)
                         {| LeafIndex := 5; AuditPath := [] |} 1%nat
                         (TestLog.start 1 None) eq_refl eq_refl eq_refl))).
  lia.
Defined.

Lemma nil_entry_panics_at_store_witness :
  VerifyInclusion tt TestLog.bare_leaf 7 (TestLog.start 1 None)
  = (Panicked, after_fetch TestLog.sth10 1%nat (TestLog.start 1 None)).
Proof.
  exact (proj1 (proj1 (proj2 (proj2 (proj2
           (nil_entry_panics_at_store (C := TestLog.env) TestLog.sct99 tt
              TestLog.bare_leaf 7 10 TestLog.root10 (TestLog.start 1 None)
              eq_refl))))
           TestLog.sth10 1%nat eq_refl)).
Defined.

Lemma HTTP_and_DNS_LogInfo_differ_in_client_witness :
  Description (TestLog.test_li 1 None) = "Test Log" /\
  PublicKey (TestLog.test_li 1 None) = TestLog.key1 /\
  Description (TestLog.test_li 2 None) = Description (TestLog.test_li 1 None) /\
  MMD (TestLog.test_li 2 None) = MMD (TestLog.test_li 1 None) /\
  Verifier (TestLog.test_li 2 None) = Verifier (TestLog.test_li 1 None) /\
  PublicKey (TestLog.test_li 2 None) = PublicKey (TestLog.test_li 1 None) /\
  lastSTH (TestLog.test_li 1 None) = None /\
  lastSTH (TestLog.test_li 2 None) = None.
Proof.
  apply (HTTP_and_DNS_LogInfo_differ_in_client (C := TestLog.env)
           TestLog.test_log tt (TestLog.test_li 1 None) (TestLog.test_li 2 None));
    reflexivity.
Defined.

Lemma MMD_in_nanoseconds_witness :
  MMD (TestLog.test_li 1 None) = 86400 * 1000000000.
Proof.
  apply (MMD_in_nanoseconds (C := TestLog.env) TestLog.test_log 1%nat
           (TestLog.test_li 1 None) eq_refl).
  simpl. lia.
Defined.

Lemma registry_map_or_error_witness :
  LogInfoByKeyHash {| Logs := Logs TestLog.one_keyless ++ [TestLog.mirror_log] |} tt
  = (None, Some ("failed to parse public key data for log "
                 +:+ TestLog.plain_Quote "Keyless Log"
                 +:+ ": asn1: syntax error: sequence truncated")).
Proof.
  apply (registry_map_or_error (C := TestLog.env) TestLog.one_keyless tt).
  reflexivity.
Defined.

Lemma registry_entries_under_own_key_hash_witness :
  (size TestLog.two_logs_registry <= 2)%nat /\
  forall h li,
    TestLog.two_logs_registry !! h = Some li ->
    h = Sum256 (PublicKey li) /\
    lastSTH li = None /\
    exists log,
      In log (Logs TestLog.two_logs) /\ Key log = PublicKey li /\
      Log_Description log = Description li.
Proof.
  apply (registry_entries_under_own_key_hash (C := TestLog.env)
           TestLog.two_logs tt TestLog.two_logs_registry).
  left. reflexivity.
Defined.

Lemma registry_order_irrelevant_witness :
  LogInfoByKeyHash TestLog.two_logs_swapped tt
  = (Some TestLog.two_logs_registry, None).
Proof.
  apply (proj1 (registry_order_irrelevant (C := TestLog.env) TestLog.two_logs
                  TestLog.two_logs_swapped tt TestLog.two_logs_registry
                  (perm_swap _ _ _) two_logs_hashes_differ)).
  reflexivity.
Defined.

Lemma DNS_registry_needs_every_endpoint_witness :
  exists err, LogInfoByKeyHashOverDNS TestLog.two_logs tt = (None, Some err).
Proof.
  apply (DNS_registry_needs_every_endpoint (C := TestLog.env) TestLog.two_logs tt).
  apply Exists_cons_tl. apply Exists_cons_hd. reflexivity.
Defined.

Lemma registry_clients_bound_to_keys_witness :
  exists url,
    String.prefix "https://" url = true /\
    client_New url tt
      {| PublicKeyDER := TestLog.key1; UserAgent := "ct-go-logclient" |}
    = inr 1%nat.
Proof.
  apply (proj1 (registry_clients_bound_to_keys (C := TestLog.env)
                  TestLog.two_logs tt TestLog.two_logs_registry
                  TestLog.key1 (TestLog.test_li 1 None) eq_refl)).
  reflexivity.
Defined.

Lemma first_Latest_on_registry_LogInfo_fetches_witness :
  fetches (trace (snd (VerifyInclusionLatest tt TestLog.leaf0 7
                         (TestLog.start 1 None)))) = 1%nat /\
  forall sth w,
    GetSTH (Client (TestLog.test_li 1 None)) tt (world (TestLog.start 1 None))
      = (inr sth, w) ->
    lastSTH (receiver (snd (VerifyInclusionLatest tt TestLog.leaf0 7
                              (TestLog.start 1 None)))) = Some sth.
Proof.
  apply (first_Latest_on_registry_LogInfo_fetches (C := TestLog.env)
           TestLog.two_logs tt TestLog.two_logs_registry TestLog.key1
           (TestLog.test_li 1 None) tt TestLog.leaf0 7 (TestLog.start 1 None)).
  - left. reflexivity.
  - reflexivity.
  - reflexivity.
Defined.

Lemma VerifyInclusion_is_Latest_on_empty_cache_witness :
  VerifyInclusion tt TestLog.leaf0 7 (TestLog.start 1 (Some TestLog.sth20))
  = VerifyInclusionLatest tt TestLog.leaf0 7
      (with_cache None (TestLog.start 1 (Some TestLog.sth20))).
Proof.
  apply (proj2 (VerifyInclusion_is_Latest_on_empty_cache (C := TestLog.env) tt
                  TestLog.leaf0 7 (TestLog.start 1 (Some TestLog.sth20)))
           TestLog.sth10 1%nat).
  reflexivity.
Defined.
